(** * Contract-dependency graph view: model builder, highlight effect,
      hover enrichment and teardown of the [GraphLayout] component.

    The definitions below are a shallow embedding of
    [GraphLayout] (draw/highlight/hover/cleanup), of the hook
    [useGraphVisualization] (same builder) and of [NodeHoverCard]; then
    of the node labels and the drag handlers of [drawGraph], of the
    [Interactions] table that sets the focused address, and of the
    validation of the address and the block range.

    Conventions of the embedding
    - JavaScript strings are [string]; [toLowerCase] is the ASCII case
      map (addresses are hexadecimal ASCII strings).
    - A JavaScript object used as a record is a [Record]; a field that the
      code guards with [|| []] or [|| {}] is an [option].
    - [Record<string, number>] is the list of its own entries in
      [Object.entries] order (keys pairwise distinct); counts are [Z].
    - A JavaScript [Set<string>] is the list of its members in insertion
      order, which is the order [Array.from] returns.
    - DOM attributes are string-valued finite maps.
    - React is the React of [createRoot], which the application mounts
      with: at an unmount it clears the refs of the elements before it
      runs the cleanups of effects. *)

From Stdlib Require Import ZArith Ascii String.
From stdpp Require Import base decidable option list strings gmap fin_maps.

Local Open Scope string_scope.

(** ** JavaScript string primitives *)
Module JS.

(** [c.toLowerCase()] on one ASCII code unit. *)
Definition lower_ascii (c : ascii) : ascii :=
  let n := nat_of_ascii c in
  if Nat.leb 65 n && Nat.leb n 90 then ascii_of_nat (n + 32) else c.

(** [s.toLowerCase()]. *)
Fixpoint toLowerCase (s : string) : string :=
  match s with
  | EmptyString => EmptyString
  | String c r => String (lower_ascii c) (toLowerCase r)
  end.

(** Truthiness of a string: every string but the empty one. *)
Definition truthy (s : string) : bool :=
  match s with
  | EmptyString => false
  | String _ _ => true
  end.

(** [new Set()] then [set.add(x)]: membership is exact string equality,
    a new member goes last. *)
Definition Set_add (s : list string) (x : string) : list string :=
  if decide (x ∈ s) then s else s ++ [x].

End JS.

(** ** Data types of [types/graph] *)
Module Graph.
Import JS.

Inductive Group := main | other.

#[global] Instance Group_eq_dec : EqDecision Group.
Proof. solve_decision. Defined.

(** [Node]; the simulator-owned coordinates [x], [y], [fx], [fy] play no
    part in what is verified here and are left out. *)
Record Node := { id : string; group : Group }.

#[global] Instance Node_eq_dec : EqDecision Node.
Proof. solve_decision. Defined.

(** [Edge]: [types] is [None] when the field is missing at run time. *)
Record Edge := {
  source : string;
  target : string;
  types : option (list (string * Z))
}.

(** [string | Node], the two shapes of a link end. *)
Inductive EndRef :=
| ById (s : string)
| ByNode (n : Node).

(** [Link]; [lsource] and [ltarget] are its fields [source] and [target],
    named apart from those of [Edge]. *)
Record Link := {
  lsource : EndRef;
  ltarget : EndRef;
  type : string;
  count : Z
}.

(** [GraphData], restricted to the fields the graph builder reads. *)
Record GraphData := {
  address : string;
  edges : option (list Edge)
}.

(** ** The builder inside [drawGraph] *)

(** [Object.entries(edge.types || {})]. *)
Definition entries (e : Edge) : list (string * Z) :=
  default [] (types e).

(** The callback of [flatMap]: one link per entry of the edge. *)
Definition edgeLinks (e : Edge) : list Link :=
  map (fun tc : string * Z =>
         {| lsource := ById (source e);
            ltarget := ById (target e);
            type := fst tc;
            count := snd tc |})
      (entries e).

(** [const links = (data.edges || []).flatMap(...)]. *)
Definition links (data : GraphData) : list Link :=
  flat_map edgeLinks (default [] (edges data)).

(** [typeof l.source === "string" ? l.source : l.source.id]. *)
Definition endId (r : EndRef) : string :=
  match r with
  | ById s => s
  | ByNode n => id n
  end.

(** The body of [links.forEach]: add the source, then the target. *)
Definition addLink (s : list string) (l : Link) : list string :=
  Set_add (Set_add s (endId (lsource l))) (endId (ltarget l)).

(** [nodeSet] after the [forEach], as [Array.from(nodeSet)]. *)
Definition nodeSet (ls : list Link) : list string :=
  fold_left addLink ls [].

(** The group test of a node id against [data.address]. *)
Definition groupOf (data : GraphData) (i : string) : Group :=
  if decide (toLowerCase i = toLowerCase (address data)) then main else other.

(** [const nodes = Array.from(nodeSet).map(id => ({id, group}))]. *)
Definition nodes (data : GraphData) : list Node :=
  map (fun i => {| id := i; group := groupOf data i |}) (nodeSet (links data)).

(** The condition of the empty-result overlay in the component's JSX:
    [jsonData && jsonData.edges && jsonData.edges.length === 0]. *)
Definition showsEmptyOverlay (jsonData : option GraphData) : bool :=
  match jsonData with
  | Some d =>
      match edges d with
      | Some [] => true
      | _ => false
      end
  | None => false
  end.

(** ** Specification-side vocabulary *)

(** Elements of a list in order of first appearance. *)
Fixpoint first_seen (l : list string) : list string :=
  match l with
  | [] => []
  | x :: r => x :: filter (fun y => y <> x) (first_seen r)
  end.

(** An edge that carries at least one interaction kind. *)
Definition hasKind (e : Edge) : bool :=
  match entries e with
  | [] => false
  | _ :: _ => true
  end.

(** Source and target of every edge of the payload, in payload order. *)
Definition allEndpoints (data : GraphData) : list string :=
  flat_map (fun e => [source e; target e]) (default [] (edges data)).

(** The same, for the edges that have a kind. *)
Definition endpoints (data : GraphData) : list string :=
  flat_map (fun e => [source e; target e])
           (List.filter hasKind (default [] (edges data))).

End Graph.

(** ** The rendered scene and the highlight effect *)
Module Scene.
Import JS Graph.

Inductive Tag := rect | g | line | circle | text.

#[global] Instance Tag_eq_dec : EqDecision Tag.
Proof. solve_decision. Defined.

(** The element name, which a type selector is compared with. *)
Definition tagName (t : Tag) : string :=
  match t with
  | rect => "rect"
  | g => "g"
  | line => "line"
  | circle => "circle"
  | text => "text"
  end.

(** The datum D3 binds to an element ([__data__]). *)
Inductive Datum :=
| NoDatum
| LinkDatum (l : Link)
| NodeDatum (n : Node).

(** An element below the [svg]: tag, attributes ([class] included) and
    bound datum.  Attributes whose value is a floating-point number in the
    source (sizes, coordinates, [Math.sqrt(d.count)]) are not recorded. *)
Record Element := {
  tag : Tag;
  attrs : gmap string string;
  datum : Datum
}.

(** The descendants of the [svg], in document order: what
    [select(svgRef.current).selectAll("*")] ranges over. *)
Abbreviation DOM := (list Element).

(** [selection.attr(k, v)] on one element. *)
Definition setAttr (k v : string) (e : Element) : Element :=
  {| tag := tag e; attrs := <[k := v]> (attrs e); datum := datum e |}.

(** ASCII white space, the separators of a [class] attribute. *)
Definition isSpace (c : ascii) : bool :=
  match nat_of_ascii c with
  | 9 | 10 | 12 | 13 | 32 => true
  | _ => false
  end.

(** Splitting a [class] attribute into its tokens; [cur] is the token
    being read. *)
Fixpoint tokens (s cur : string) : list string :=
  match s with
  | EmptyString =>
      match cur with EmptyString => [] | _ => [cur] end
  | String c r =>
      if isSpace c
      then match cur with
           | EmptyString => tokens r EmptyString
           | _ => cur :: tokens r EmptyString
           end
      else tokens r (cur ++ String c EmptyString)
  end.

Definition classList (e : Element) : list string :=
  match attrs e !! "class" with
  | Some s => tokens s EmptyString
  | None => []
  end.

(** An element matches the class selector [.c] when [c] is one of its
    class tokens; tokens are compared exactly, letter case included (the
    page is a standards-mode document). *)
Definition hasClass (c : string) (e : Element) : bool :=
  bool_decide (c ∈ classList e).

(** Characters after which [".node-" + a] and ["line.link-" + a] are still
    one class selector: letters, digits, [-] and [_]. *)
Definition nameChar (c : ascii) : bool :=
  let n := nat_of_ascii c in
  (Nat.leb 48 n && Nat.leb n 57) || (Nat.leb 65 n && Nat.leb n 90) ||
  (Nat.leb 97 n && Nat.leb n 122) || Nat.eqb n 45 || Nat.eqb n 95.

Fixpoint cssName (s : string) : bool :=
  match s with
  | EmptyString => true
  | String c r => nameChar c && cssName r
  end.

(** [selectAll(sel).attr(k, v)]: set [k] on every selected element. *)
Definition attrIf (sel : Element -> bool) (k v : string) (e : Element)
  : Element :=
  if sel e then setAttr k v e else e.

Definition attrAll (sel : Element -> bool) (k v : string) (d : DOM) : DOM :=
  map (attrIf sel k v) d.

Definition isTag (t : Tag) (e : Element) : bool := bool_decide (tag e = t).

(** The lower-cased id of a link end, as both the [class] callback of
    [drawGraph] and the [stroke] callback of the highlight effect compute
    it. *)
Definition endLower (r : EndRef) : string :=
  match r with
  | ByNode n => if truthy (id n) then toLowerCase (id n) else ""
  | ById s => toLowerCase s
  end.

(** [sourceId] and [targetId] as the [stroke] callback reads them off the
    datum [d]: the lower-cased ends of a link; two empty strings for a
    datum without [source] and [target]; with no datum at all, reading
    [d.source] raises ([None]). *)
Definition endsOf (dt : Datum) : option (string * string) :=
  match dt with
  | LinkDatum l => Some (endLower (lsource l), endLower (ltarget l))
  | NodeDatum _ => Some ("", "")
  | NoDatum => None
  end.

(** The colour the [stroke] callback returns: red for an edge with an end
    at the subject contract, orange otherwise. *)
Definition strokeOfEnds (data : GraphData) (st : string * string) : string :=
  if bool_decide (fst st = toLowerCase (address data)) ||
     bool_decide (snd st = toLowerCase (address data))
  then "#ff6666" else "#ff9933".

Definition strokeOf (data : GraphData) (l : Link) : string :=
  strokeOfEnds data (endLower (lsource l), endLower (ltarget l)).

(** [selectAll("line.link-" + a).attr("stroke-opacity", 1).attr("stroke", fn)]
    on one element; [None] when the callback raises. *)
Definition strokeElem (data : GraphData) (a : string) (e : Element)
  : option Element :=
  if isTag line e && hasClass ("link-" ++ a) e
  then match endsOf (datum e) with
       | Some st =>
           Some (setAttr "stroke" (strokeOfEnds data st)
                   (setAttr "stroke-opacity" "1" e))
       | None => None
       end
  else Some e.

Fixpoint strokeLinks (data : GraphData) (a : string) (d : DOM) : option DOM :=
  match d with
  | [] => Some []
  | e :: r =>
      match strokeElem data a e, strokeLinks data a r with
      | Some e', Some r' => Some (e' :: r')
      | _, _ => None
      end
  end.

(** The first half of the effect: every circle and line back to the
    default. *)
Definition resetAll (d : DOM) : DOM :=
  attrAll (isTag line) "stroke" "#999"
    (attrAll (isTag line) "stroke-opacity" "0.6"
       (attrAll (isTag circle) "stroke-width" "1.5"
          (attrAll (isTag circle) "opacity" "1" d))).

(** The branch [if (highlightAddress)], for an address [a] such that the
    two selectors are plain class selectors. *)
Definition focusOn (data : GraphData) (a : string) (d : DOM) : option DOM :=
  strokeLinks data a
    (attrAll (hasClass ("node-" ++ a)) "stroke-width" "3"
       (attrAll (hasClass ("node-" ++ a)) "opacity" "1"
          (attrAll (isTag line) "stroke-opacity" "0.1"
             (attrAll (isTag circle) "opacity" "0.2" d)))).

(** *** Addresses that make selector lists *)

(** The address is pasted into the two selectors as it is.  With commas
    in it, [".node-" + a] and ["line.link-" + a] are selector lists: the
    class selector made with what stands before the first comma, then the
    selectors that stand between the commas.  The lists read here are those
    whose further members are type selectors in lower-case letters, such
    as [circle]. *)
Definition lowerLetter (c : ascii) : bool :=
  let n := nat_of_ascii c in Nat.leb 97 n && Nat.leb n 122.

Fixpoint lowerLetters (s : string) : bool :=
  match s with
  | EmptyString => true
  | String c r => lowerLetter c && lowerLetters r
  end.

Definition typeSelector (s : string) : bool := truthy s && lowerLetters s.

(** The pieces of [s] between its commas; [cur] is the piece being read. *)
Fixpoint pieces (s cur : string) : list string :=
  match s with
  | EmptyString => [cur]
  | String c r =>
      if Ascii.eqb c ","
      then cur :: pieces r EmptyString
      else pieces r (cur ++ String c EmptyString)
  end.

(** The name before the first comma and the type selectors after it. *)
Definition selectorList (a : string) : option (string * list string) :=
  match pieces a EmptyString with
  | c :: ts =>
      if cssName c && forallb typeSelector ts then Some (c, ts) else None
  | [] => None
  end.

Definition hasTagIn (ts : list string) (e : Element) : bool :=
  bool_decide (tagName (tag e) ∈ ts).

(** What [".node-" + a] and ["line.link-" + a] select for [a = c,t1,..,tk]. *)
Definition nodeSelector (c : string) (ts : list string) (e : Element) : bool :=
  hasClass ("node-" ++ c) e || hasTagIn ts e.

Definition linkSelector (c : string) (ts : list string) (e : Element) : bool :=
  (isTag line e && hasClass ("link-" ++ c) e) || hasTagIn ts e.

(** [selection.attr("stroke-opacity", 1).attr("stroke", fn)] on one element
    of a selection given by [sel]; [None] when the callback raises. *)
Definition strokeWith (data : GraphData) (sel : Element -> bool) (e : Element)
  : option Element :=
  if sel e
  then match endsOf (datum e) with
       | Some st =>
           Some (setAttr "stroke" (strokeOfEnds data st)
                   (setAttr "stroke-opacity" "1" e))
       | None => None
       end
  else Some e.

Fixpoint strokeAll (data : GraphData) (sel : Element -> bool) (d : DOM)
  : option DOM :=
  match d with
  | [] => Some []
  | e :: r =>
      match strokeWith data sel e, strokeAll data sel r with
      | Some e', Some r' => Some (e' :: r')
      | _, _ => None
      end
  end.

(** The branch [if (highlightAddress)], given what its two selectors
    select: [selN] for [".node-" + a], [selL] for ["line.link-" + a]. *)
Definition focusWith (data : GraphData) (selN selL : Element -> bool)
    (d : DOM) : option DOM :=
  strokeAll data selL
    (attrAll selN "stroke-width" "3"
       (attrAll selN "opacity" "1"
          (attrAll (isTag line) "stroke-opacity" "0.1"
             (attrAll (isTag circle) "opacity" "0.2" d)))).

(** The highlight effect of [GraphLayout], run on the content [d] of the
    mounted [svg] (with [svgRef.current] null the effect returns at once
    and there is nothing to act on).  A focused address that is a name
    gives two class selectors; one that is a name followed by type
    selectors gives two selector lists.  [None] stands for a run that does
    not complete, the [stroke] callback raising on an element without
    datum, and for the addresses that give neither: strings that are no
    selector, on which [selectAll] raises, and selectors of other forms,
    which are not read here. *)
Definition highlightEffect (jsonData : option GraphData)
    (highlightAddress : option string) (d : DOM) : option DOM :=
  match jsonData with
  | None => Some d
  | Some data =>
      match highlightAddress with
      | None => Some (resetAll d)
      | Some a =>
          if truthy a
          then if cssName a then focusOn data a (resetAll d)
               else match selectorList a with
                    | Some (c, ts) =>
                        focusWith data (nodeSelector c ts) (linkSelector c ts)
                          (resetAll d)
                    | None => None
                    end
          else Some (resetAll d)
      end
  end.

(** *** What [drawGraph] renders *)

(** [forceLink(links).id(d => d.id)] replaces each end given by id with
    the node of that id; D3 raises when there is none. *)
Definition resolveEnd (ns : list Node) (r : EndRef) : option EndRef :=
  match r with
  | ByNode n => Some (ByNode n)
  | ById s => option_map ByNode (List.find (fun n => bool_decide (id n = s)) ns)
  end.

Definition resolveLink (ns : list Node) (l : Link) : option Link :=
  match resolveEnd ns (lsource l), resolveEnd ns (ltarget l) with
  | Some s, Some t =>
      Some {| lsource := s; ltarget := t; type := type l; count := count l |}
  | _, _ => None
  end.

Fixpoint forceLink (ns : list Node) (ls : list Link) : option (list Link) :=
  match ls with
  | [] => Some []
  | l :: r =>
      match resolveLink ns l, forceLink ns r with
      | Some l', Some r' => Some (l' :: r')
      | _, _ => None
      end
  end.

Definition mkElement (t : Tag) (kvs : list (string * string)) (d : Datum)
  : Element :=
  {| tag := t; attrs := list_to_map kvs; datum := d |}.

Definition lineOf (l : Link) : Element :=
  mkElement line
    [("class", "link-" ++ endLower (lsource l) ++ " link-" ++ endLower (ltarget l))]
    (LinkDatum l).

Definition flowDotOf (l : Link) : Element :=
  mkElement circle
    [("class", "flow-dot"); ("r", "2"); ("fill", "#EFB6C8");
     ("style", "opacity: 0.7;"); ("filter", "url(#dotGlow)");
     ("opacity", "0.7")]
    (LinkDatum l).

Definition circleOf (n : Node) : Element :=
  mkElement circle
    [("r", match group n with main => "10" | other => "5" end);
     ("fill", match group n with main => "#C5BAFF" | other => "#91b8ff" end);
     ("class", "node-" ++ toLowerCase (id n));
     ("style", "cursor: pointer;")]
    (NodeDatum n).

Definition labelOf (n : Node) : Element :=
  mkElement text [("font-size", "10"); ("dx", "8"); ("dy", "0.35em")]
    (NodeDatum n).

(** The elements [drawGraph] of [GraphLayout] leaves below the [svg], in
    document order: background, zoom group, link group and lines, flow-dot
    layer and dots, node group and circles, label group and labels. *)
Definition scene (ns : list Node) (ls : list Link) : DOM :=
  mkElement rect [("fill", "white"); ("rx", "8"); ("ry", "8")] NoDatum ::
  mkElement g [] NoDatum ::
  mkElement g [("fill", "none"); ("stroke", "#999"); ("stroke-opacity", "0.6")]
    NoDatum ::
  map lineOf ls ++
  mkElement g [("class", "flow-dots-layer")] NoDatum ::
  map flowDotOf ls ++
  mkElement g [("stroke", "#fff"); ("stroke-width", "0.2")] NoDatum ::
  map circleOf ns ++
  mkElement g [] NoDatum ::
  map labelOf ns.

Definition drawn (data : GraphData) : option DOM :=
  option_map (scene (nodes data)) (forceLink (nodes data) (links data)).

(** *** Vocabulary for the statements about the effect *)

(** No white space in a string: as a class it is one token. *)
Fixpoint noSpace (s : string) : bool :=
  match s with
  | EmptyString => true
  | String c r => negb (isSpace c) && noSpace r
  end.

(** What the effect does to one element when no address is focused. *)
Definition resetElem (e : Element) : Element :=
  attrIf (isTag line) "stroke" "#999"
    (attrIf (isTag line) "stroke-opacity" "0.6"
       (attrIf (isTag circle) "stroke-width" "1.5"
          (attrIf (isTag circle) "opacity" "1" e))).

(** What the effect does to one element when [a] is focused. *)
Definition focusElem (data : GraphData) (a : string) (e : Element)
  : option Element :=
  strokeElem data a
    (attrIf (hasClass ("node-" ++ a)) "stroke-width" "3"
       (attrIf (hasClass ("node-" ++ a)) "opacity" "1"
          (attrIf (isTag line) "stroke-opacity" "0.1"
             (attrIf (isTag circle) "opacity" "0.2" (resetElem e))))).

(** The same, given what the two selectors select. *)
Definition focusElemWith (data : GraphData) (selN selL : Element -> bool)
    (e : Element) : option Element :=
  strokeWith data selL
    (attrIf selN "stroke-width" "3"
       (attrIf selN "opacity" "1"
          (attrIf (isTag line) "stroke-opacity" "0.1"
             (attrIf (isTag circle) "opacity" "0.2" (resetElem e))))).

(** A link touches the address [a]. *)
Definition touches (a : string) (l : Link) : Prop :=
  endLower (lsource l) = a \/ endLower (ltarget l) = a.

(** A link has the subject contract of [data] at one end. *)
Definition direct (data : GraphData) (l : Link) : Prop :=
  endLower (lsource l) = toLowerCase (address data) \/
  endLower (ltarget l) = toLowerCase (address data).

(** [e'] is [e] as it looks while [a] is focused: the circle of the node
    whose lower-cased id is [a] and the lines that touch [a] are opaque,
    the other circles and lines are dimmed; a line that touches [a] is red
    when direct and orange when not. *)
Definition focused (data : GraphData) (a : string) (e e' : Element) : Prop :=
  tag e' = tag e /\ datum e' = datum e /\
  (forall n, tag e = circle -> datum e = NodeDatum n ->
     attrs e' !! "opacity" =
     Some (if decide (toLowerCase (id n) = a) then "1" else "0.2")) /\
  (forall l, tag e = line -> datum e = LinkDatum l ->
     attrs e' !! "stroke-opacity" =
       Some (if decide (touches a l) then "1" else "0.1") /\
     attrs e' !! "stroke" =
       Some (if decide (touches a l)
             then if decide (direct data l) then "#ff6666" else "#ff9933"
             else "#999")).

(** What the effect may change on an element: opacity, stroke opacity,
    stroke colour and stroke width. *)
Definition look (e : Element)
  : option string * option string * option string * option string :=
  (attrs e !! "opacity", attrs e !! "stroke-opacity", attrs e !! "stroke",
   attrs e !! "stroke-width").


(** The attribute map a focused run leaves on an element with attributes
    [m], given what the selectors see of it: whether it is a circle, a
    line, and whether it carries the node class and the link class of the
    focused address. *)
Definition focusAttrs (data : GraphData) (isCircle isLine atNode atLink : bool)
    (dt : Datum) (m : gmap string string) : gmap string string :=
  let m1 := if isCircle then <["stroke-width" := "1.5"]> (<["opacity" := "1"]> m)
            else m in
  let m2 := if isLine then <["stroke" := "#999"]> (<["stroke-opacity" := "0.6"]> m1)
            else m1 in
  let m3 := if isCircle then <["opacity" := "0.2"]> m2 else m2 in
  let m4 := if isLine then <["stroke-opacity" := "0.1"]> m3 else m3 in
  let m5 := if atNode then <["stroke-width" := "3"]> (<["opacity" := "1"]> m4)
            else m4 in
  if isLine && atLink
  then match endsOf dt with
       | Some st =>
           <["stroke" := strokeOfEnds data st]> (<["stroke-opacity" := "1"]> m5)
       | None => m5
       end
  else m5.

End Scene.

(** ** Hover enrichment and the hover card *)
Module Hover.
Import JS.

(** A field of [NodeHoverInfo]: [None] when the key is absent,
    [Some None] when it is present with [null] or [undefined],
    [Some (Some s)] when it holds the string [s]. *)
Abbreviation Field := (option (option string)).

(** [NodeHoverInfo]; [error] is only ever absent or [true]. *)
Record NodeHoverInfo := {
  balance : Field;
  company : Field;
  error : bool
}.

(** The object literal [{}]. *)
Definition emptyInfo : NodeHoverInfo :=
  {| balance := None; company := None; error := false |}.

(** [{ ...prev }] for a [prev] that may be [null]. *)
Definition spread (prev : option NodeHoverInfo) : NodeHoverInfo :=
  default emptyInfo prev.

Inductive Lookup := Balance | Company.

#[global] Instance Lookup_eq_dec : EqDecision Lookup.
Proof. solve_decision. Defined.

(** How a [fetch(...).then(res => res.json()).then(...)] chain ends for a
    handler that runs to its end: with the looked-up field of the parsed
    body ([None] for [null] or [undefined]), or rejected (network failure,
    unparsable body).  A body that parsed to [null] is neither: see
    [NullBody] below. *)
Inductive Outcome :=
| Fulfilled (v : option string)
| Rejected.

(** The updater passed to [setHoveredNodeInfo] by the [then] and the
    [catch] handler of each lookup. *)
Definition applyOutcome (k : Lookup) (o : Outcome)
    (prev : option NodeHoverInfo) : NodeHoverInfo :=
  let p := spread prev in
  match k, o with
  | Balance, Fulfilled v =>
      {| balance := Some v; company := company p; error := error p |}
  | Balance, Rejected =>
      {| balance := Some None; company := company p; error := true |}
  | Company, Fulfilled v =>
      {| balance := balance p; company := Some v; error := error p |}
  | Company, Rejected =>
      {| balance := balance p; company := Some None; error := true |}
  end.

(** The part of the component state that hovering touches.  [inflight]
    lists the lookups issued and not yet settled, each with the id of the
    node it was issued for. *)
Record State := {
  dragging : bool;
  hoveredNodeId : option string;
  hoveredNodeInfo : option NodeHoverInfo;
  inflight : list (string * Lookup)
}.

Definition initial : State :=
  {| dragging := false; hoveredNodeId := None; hoveredNodeInfo := None;
     inflight := [] |}.

Inductive Event :=
| DragStart
| DragEnd
| MouseOver (nodeId : string)
| MouseOut
| Settle (i : nat) (o : Outcome).

(** The [mouseover] listener. *)
Definition mouseover (s : State) (nodeId : string) : State :=
  if dragging s then s
  else {| dragging := false;
          hoveredNodeId := Some nodeId;
          hoveredNodeInfo := Some emptyInfo;
          inflight := inflight s ++ [(nodeId, Balance); (nodeId, Company)] |}.

(** The [mouseout] listener. *)
Definition mouseout (s : State) : State :=
  {| dragging := dragging s; hoveredNodeId := None; hoveredNodeInfo := None;
     inflight := inflight s |}.

(** The [i]-th lookup in flight settles: its handler runs. *)
Definition settle (s : State) (i : nat) (o : Outcome) : State :=
  match inflight s !! i with
  | Some (_, k) =>
      {| dragging := dragging s;
         hoveredNodeId := hoveredNodeId s;
         hoveredNodeInfo := Some (applyOutcome k o (hoveredNodeInfo s));
         inflight := delete i (inflight s) |}
  | None => s
  end.

Definition step (s : State) (e : Event) : State :=
  match e with
  | DragStart =>
      {| dragging := true; hoveredNodeId := hoveredNodeId s;
         hoveredNodeInfo := hoveredNodeInfo s; inflight := inflight s |}
  | DragEnd =>
      {| dragging := false; hoveredNodeId := hoveredNodeId s;
         hoveredNodeInfo := hoveredNodeInfo s; inflight := inflight s |}
  | MouseOver n => mouseover s n
  | MouseOut => mouseout s
  | Settle i o => settle s i o
  end.

Definition run (s : State) (es : list Event) : State := fold_left step es s.

(** *** [NodeHoverCard] *)

(** What the card shows under the address line. *)
Inductive Body :=
| Loading
| Placeholders (balanceText companyText : string)
| Values (balanceText companyText : option string).

Record Card := { shownAddress : string; body : Body }.

(** [Object.keys(nodeInfo).length === 0]. *)
Definition noKeys (i : NodeHoverInfo) : bool :=
  match balance i, company i, error i with
  | None, None, false => true
  | _, _, _ => false
  end.

(** What React prints for [{nodeInfo.balance}]. *)
Definition printed (f : Field) : option string := mjoin f.

Definition NodeHoverCard (nodeId : string) (nodeInfo : option NodeHoverInfo)
  : Card :=
  {| shownAddress := nodeId;
     body := match nodeInfo with
             | None => Loading
             | Some i =>
                 if noKeys i then Loading
                 else if error i then Placeholders "500" "CCinc"
                 else Values (printed (balance i)) (printed (company i))
             end |}.

(** [{hoveredNodeId && hoveredNodeInfo && <NodeHoverCard .../>}]. *)
Definition hoverCard (s : State) : option Card :=
  match hoveredNodeId s, hoveredNodeInfo s with
  | Some n, Some i => if truthy n then Some (NodeHoverCard n (Some i)) else None
  | _, _ => None
  end.

(** *** A body that is [null] *)

(** What reaches the component: an event it handles, or the [i]-th lookup
    in flight resolving to the body [null].  The updater of the [then]
    handler reads [data.balance] (or [data.company]) when React runs it,
    while rendering; for [null] the read raises there, outside the promise
    chain, so the [catch] handler does not see it: the error boundary at
    the root takes over and the component is unmounted. *)
Inductive Arrival :=
| Handled (e : Event)
| NullBody (i : nat).

(** The component with its state, or [None] once it is unmounted. *)
Definition arrive (t : option State) (a : Arrival) : option State :=
  match t, a with
  | Some s, Handled e => Some (step s e)
  | Some s, NullBody i =>
      match inflight s !! i with
      | Some _ => None
      | None => Some s
      end
  | None, _ => None
  end.

Definition arrivals (t : option State) (l : list Arrival) : option State :=
  fold_left arrive l t.


End Hover.

(** ** Lifecycle: what is scheduled, and what teardown releases *)
Module Lifecycle.
Import Graph.

(** A force simulation either still schedules ticks or was stopped. *)
Inductive SimState := Running | Stopped.

(** Where a flow dot is in [animateDot]: travelling along its link, fading
    out, waiting for the [setTimeout] that restarts it, or at rest with
    nothing scheduled. *)
Inductive Phase := Traveling | Fading | Waiting | Idle.

#[global] Instance Phase_eq_dec : EqDecision Phase.
Proof. solve_decision. Defined.

(** What one call of [drawGraph] creates: a simulation and one flow dot
    per link. *)
Record Generation := { sim : SimState; dots : list Phase }.

(** The refs of the component and the callbacks registered with the
    browser and with D3.  Graphs are numbered in drawing order; a ref holds
    the number of the graph whose object it points to. *)
Record World := {
  mounted : bool;
  svgRef : bool;
  graphDrawnRef : bool;
  simulationRef : option nat;
  svgSelection : option nat;
  gSelection : option nat;
  zoomBehavior : option nat;
  zoomListener : option nat;
  attached : option nat;
  gens : list Generation
}.

Definition initial : World :=
  {| mounted := true; svgRef := true; graphDrawnRef := false;
     simulationRef := None; svgSelection := None; gSelection := None;
     zoomBehavior := None; zoomListener := None; attached := None;
     gens := [] |}.

Definition setGens (w : World) (gs : list Generation) : World :=
  {| mounted := mounted w; svgRef := svgRef w;
     graphDrawnRef := graphDrawnRef w; simulationRef := simulationRef w;
     svgSelection := svgSelection w; gSelection := gSelection w;
     zoomBehavior := zoomBehavior w; zoomListener := zoomListener w;
     attached := attached w; gens := gs |}.

Definition setSim (s : SimState) (n : Generation) : Generation :=
  {| sim := s; dots := dots n |}.

Definition setDot (i : nat) (p : Phase) (n : Generation) : Generation :=
  {| sim := sim n; dots := <[i := p]> (dots n) |}.

(** [drawGraph(data)]. *)
Definition drawGraph (w : World) (data : GraphData) : World :=
  if graphDrawnRef w then w
  else if negb (svgRef w) then w
  else
    let n := length (gens w) in
    {| mounted := mounted w; svgRef := svgRef w;
       graphDrawnRef := true;
       simulationRef := Some n;
       svgSelection := Some n; gSelection := Some n;
       zoomBehavior := Some n; zoomListener := Some n;
       attached := Some n;
       gens := gens w ++
               [{| sim := Running;
                   dots := replicate (length (links data)) Traveling |}] |}.

(** The effect on [jsonData]: clear the drawn flag, then draw. *)
Definition payloadEffect (w : World) (data : GraphData) : World :=
  drawGraph
    {| mounted := mounted w; svgRef := svgRef w; graphDrawnRef := false;
       simulationRef := simulationRef w; svgSelection := svgSelection w;
       gSelection := gSelection w; zoomBehavior := zoomBehavior w;
       zoomListener := zoomListener w; attached := attached w;
       gens := gens w |}
    data.

(** The cleanup returned by the last effect of [GraphLayout]. *)
Definition cleanup (w : World) : World :=
  {| mounted := mounted w; svgRef := svgRef w;
     graphDrawnRef := graphDrawnRef w;
     simulationRef := None;
     svgSelection := None; gSelection := None; zoomBehavior := None;
     zoomListener := if svgRef w then None else zoomListener w;
     attached := if svgRef w then None else attached w;
     gens := match simulationRef w with
             | Some n => alter (setSim Stopped) n (gens w)
             | None => gens w
             end |}.

(** Unmounting.  The root is made with [createRoot]: React first takes
    the [svg] out of the document and sets [svgRef.current] to null, and
    only then runs the cleanup of the effect. *)
Definition unmount (w : World) : World :=
  let c := cleanup
             {| mounted := mounted w; svgRef := false;
                graphDrawnRef := graphDrawnRef w;
                simulationRef := simulationRef w;
                svgSelection := svgSelection w; gSelection := gSelection w;
                zoomBehavior := zoomBehavior w; zoomListener := zoomListener w;
                attached := attached w; gens := gens w |} in
  {| mounted := false; svgRef := svgRef c;
     graphDrawnRef := graphDrawnRef c; simulationRef := simulationRef c;
     svgSelection := svgSelection c; gSelection := gSelection c;
     zoomBehavior := zoomBehavior c; zoomListener := zoomListener c;
     attached := attached c; gens := gens c |}.

(** Pointer gestures on a node circle. *)
Inductive Gesture := Click | DragStart | Drag | DragEnd | MouseOver | MouseOut.

Inductive Event :=
| Payload (data : GraphData)
| Unmount
| Tick (n : nat) (cooled : bool)
| Pointer (n : nat) (k : Gesture)
| Zoom (n : nat)
| TravelEnd (n i : nat)
| FadeEnd (n i : nat)
| Timeout (n i : nat).

(** The callbacks: every event but the two driven by React. *)
Definition callback (e : Event) : bool :=
  match e with
  | Payload _ | Unmount => false
  | _ => true
  end.

Definition phaseAt (w : World) (n i : nat) : option Phase :=
  match gens w !! n with
  | Some gn => dots gn !! i
  | None => None
  end.

(** One turn of the event loop.  [None]: the event cannot happen in [w],
    because nothing that would deliver it is registered:
    - a tick needs its simulation running; on a tick with
      [alpha() < 0.01] the handler stops the simulation;
    - a pointer gesture needs the circles of that graph below the [svg]
      and the [svg] in the document; a drag start restarts the simulation;
    - a zoom gesture needs the zoom listeners on the [svg] and the [svg]
      in the document;
    - the end of the travel starts the fade; the end of the fade arms the
      restart timer if the dot still has a parent; the timer calls
      [animateDot], which starts the travel again. *)
Definition step (w : World) (e : Event) : option World :=
  match e with
  | Payload data => if mounted w then Some (payloadEffect w data) else None
  | Unmount => if mounted w then Some (unmount w) else None
  | Tick n cooled =>
      match gens w !! n with
      | Some gn =>
          match sim gn with
          | Running =>
              Some (if cooled
                    then setGens w (alter (setSim Stopped) n (gens w))
                    else w)
          | Stopped => None
          end
      | None => None
      end
  | Pointer n k =>
      if mounted w && bool_decide (attached w = Some n)
      then match k with
           | DragStart => Some (setGens w (alter (setSim Running) n (gens w)))
           | _ => Some w
           end
      else None
  | Zoom n =>
      if mounted w && bool_decide (zoomListener w = Some n)
      then Some w else None
  | TravelEnd n i =>
      match phaseAt w n i with
      | Some Traveling => Some (setGens w (alter (setDot i Fading) n (gens w)))
      | _ => None
      end
  | FadeEnd n i =>
      match phaseAt w n i with
      | Some Fading =>
          Some (setGens w
                  (alter (setDot i (if bool_decide (attached w = Some n)
                                    then Waiting else Idle))
                         n (gens w)))
      | _ => None
      end
  | Timeout n i =>
      match phaseAt w n i with
      | Some Waiting => Some (setGens w (alter (setDot i Traveling) n (gens w)))
      | _ => None
      end
  end.

Fixpoint run (w : World) (es : list Event) : option World :=
  match es with
  | [] => Some w
  | e :: r =>
      match step w e with
      | Some w' => run w' r
      | None => None
      end
  end.











End Lifecycle.

(** ** Concrete payloads *)
Module Examples.
Import Graph.

Definition mkEdge (s t : string) (ts : list (string * Z)) : Edge :=
  {| source := s; target := t; types := Some ts |}.

(** The one-edge scenario: subject [0xAAA] calls [0xBBB] three times. *)
Definition scenario : GraphData :=
  {| address := "0xAAA";
     edges := Some [mkEdge "0xAAA" "0xBBB" [("call", 3%Z)]] |}.

(** Its scene, after D3 has replaced the ends of the link by the nodes. *)
Definition scenarioScene : list Scene.Element :=
  Scene.scene (nodes scenario)
    [{| lsource := ByNode {| id := "0xAAA"; group := main |};
        ltarget := ByNode {| id := "0xBBB"; group := other |};
        type := "call"; count := 3%Z |}].

(** The same target written once in mixed case, once in lower case. *)
Definition mixedTarget : GraphData :=
  {| address := "0xaa";
     edges := Some [mkEdge "0xaa" "0xBb" [("call", 1%Z)];
                    mkEdge "0xaa" "0xbb" [("call", 2%Z)]] |}.

(** The subject written once in lower case, once in upper case. *)
Definition mixedSubject : GraphData :=
  {| address := "0xaa";
     edges := Some [mkEdge "0xaa" "0xbb" [("call", 1%Z)];
                    mkEdge "0xAA" "0xcc" [("call", 2%Z)]] |}.

(** An edge whose [types] map is empty. *)
Definition untyped : GraphData :=
  {| address := "0xaa"; edges := Some [mkEdge "0xaa" "0xbb" []] |}.

(** A payload without edges. *)
Definition noEdges (a : string) : GraphData :=
  {| address := a; edges := Some [] |}.

(** The component after the scenario was drawn and its one flow dot has
    travelled and faded once: the dot waits for its restart timer. *)
Definition oneDotWaiting : Lifecycle.World :=
  {| Lifecycle.mounted := true; Lifecycle.svgRef := true;
     Lifecycle.graphDrawnRef := true; Lifecycle.simulationRef := Some 0;
     Lifecycle.svgSelection := Some 0; Lifecycle.gSelection := Some 0;
     Lifecycle.zoomBehavior := Some 0; Lifecycle.zoomListener := Some 0;
     Lifecycle.attached := Some 0;
     Lifecycle.gens := [{| Lifecycle.sim := Lifecycle.Running;
                           Lifecycle.dots := [Lifecycle.Waiting] |}] |}.

(** A payload whose target holds a comma, and its scene. *)
Definition commaTarget : GraphData :=
  {| address := "0xaaa";
     edges := Some [mkEdge "0xaaa" "0xbbb,circle" [("call", 1%Z)]] |}.

Definition commaScene : list Scene.Element :=
  Scene.scene (nodes commaTarget)
    [{| lsource := ByNode {| id := "0xaaa"; group := main |};
        ltarget := ByNode {| id := "0xbbb,circle"; group := other |};
        type := "call"; count := 1%Z |}].

(** An edge with two interaction kinds. *)
Definition twoKinds : Edge :=
  mkEdge "0xaa" "0xbb" [("call", 3%Z); ("delegatecall", 1%Z)].

End Examples.

(** ** Sentences of the specification, as stated *)
Module Stated.
Import JS Graph.

(** One node per unique lower-case address of an edge end, in order of
    first appearance. *)
Definition one_node_per_lowercase_address (data : GraphData) : Prop :=
  map (fun n => toLowerCase (id n)) (nodes data) =
  first_seen (map toLowerCase (allEndpoints data)).

(** Exactly one [main] node whenever the subject address is an edge end. *)
Definition one_main_when_present (data : GraphData) : Prop :=
  address data ∈ allEndpoints data ->
  length (filter (fun n => group n = main) (nodes data)) = 1.



(** A lookup that settles while its node is not the hovered one leaves the
    hover info as it was. *)
Definition stale_result_discarded : Prop :=
  forall es i nodeId k o,
    let s := Hover.run Hover.initial es in
    Hover.inflight s !! i = Some (nodeId, k) ->
    Hover.hoveredNodeId s <> Some nodeId ->
    Hover.hoveredNodeInfo (Hover.settle s i o) = Hover.hoveredNodeInfo s.



End Stated.

(** ** More JavaScript string primitives *)
Module Text.
Import JS.

(** White space as [String.prototype.trim] sees it, among ASCII. *)
Definition isWhite (c : ascii) : bool :=
  match nat_of_ascii c with
  | 9 | 10 | 11 | 12 | 13 | 32 => true
  | _ => false
  end.

Fixpoint trimStart (s : string) : string :=
  match s with
  | EmptyString => EmptyString
  | String c r => if isWhite c then trimStart r else s
  end.

Fixpoint trimEnd (s : string) : string :=
  match s with
  | EmptyString => EmptyString
  | String c r =>
      match trimEnd r with
      | EmptyString => if isWhite c then EmptyString else String c EmptyString
      | r' => String c r'
      end
  end.

(** [s.trim()]. *)
Definition trim (s : string) : string := trimEnd (trimStart s).

(** [s.startsWith(p)]. *)
Fixpoint startsWith (s p : string) : bool :=
  match p, s with
  | EmptyString, _ => true
  | String _ _, EmptyString => false
  | String a p', String b s' => bool_decide (a = b) && startsWith s' p'
  end.

(** [s.includes(q)]. *)
Fixpoint includes (s q : string) : bool :=
  startsWith s q ||
  match s with
  | EmptyString => false
  | String _ r => includes r q
  end.

(** [s.slice(0, n)]. *)
Definition sliceTo (n : nat) (s : string) : string := substring 0 n s.

(** [s.slice(-n)]. *)
Definition sliceLast (n : nat) (s : string) : string :=
  substring (String.length s - n) n s.

(** [a || b] on values that may be [undefined]; [t] tells which values
    are truthy. *)
Definition orElse {A} (t : A -> bool) (a b : option A) : option A :=
  match a with
  | Some s => if t s then a else b
  | None => b
  end.

End Text.

(** ** The label of a node *)
Module Labels.
Import JS Text.

(** The keys under which every object finds a property of
    [Object.prototype]. *)
Definition inheritedKeys : list string :=
  ["constructor"; "hasOwnProperty"; "isPrototypeOf"; "propertyIsEnumerable";
   "toLocaleString"; "toString"; "valueOf"; "__proto__";
   "__defineGetter__"; "__defineSetter__"; "__lookupGetter__";
   "__lookupSetter__"].

(** What a property read on [data.nodes] gives: the name filed under the
    key, or, for a key that is not filed, what the object inherits under
    it (a function; the prototype itself for [__proto__]). *)
Inductive Read :=
| Filed (name : string)
| Inherited (k : string).

#[global] Instance Read_eq_dec : EqDecision Read.
Proof. solve_decision. Defined.

(** A name is truthy unless empty; functions and objects are truthy. *)
Definition truthyRead (r : Read) : bool :=
  match r with
  | Filed name => truthy name
  | Inherited _ => true
  end.

(** [data.nodes?.[k]]; [names] holds the own keys of [data.nodes]. *)
Definition lookupName (names : option (gmap string string)) (k : string)
  : option Read :=
  match names with
  | Some m =>
      match m !! k with
      | Some name => Some (Filed name)
      | None => if decide (k ∈ inheritedKeys) then Some (Inherited k) else None
      end
  | None => None
  end.

(** The shortened address [`${id.slice(0, 6)}...${id.slice(-4)}`]. *)
Definition shorten (i : string) : string :=
  sliceTo 6 i ++ "..." ++ sliceLast 4 i.

(** The [text] callback of the labels in [drawGraph]; [names] is
    [data.nodes].  The label is the text of the value returned: a string
    as it is, an inherited function or object as JavaScript prints it. *)
Definition labelText (names : option (gmap string string)) (i : string)
  : Read :=
  match orElse truthyRead (lookupName names (toLowerCase i))
               (lookupName names i) with
  | Some name => if truthyRead name then name else Filed (shorten i)
  | None => Filed (shorten i)
  end.

End Labels.

(** ** Dragging a node *)
Module Drag.

(** [simulation.alphaTarget()]: 0 at rest, 0.3 while a node is dragged. *)
Inductive AlphaTarget := Rest | Reheated.

Section Coordinates.

(** The type of coordinates (JavaScript numbers). *)
Context {R : Type}.

(** The simulator-owned and the drag-owned fields of a [Node];
    [None] is [undefined] or [null]. *)
Record Position := {
  x : option R;
  y : option R;
  fx : option R;
  fy : option R
}.

(** What the drag handlers read and write. *)
Record State := {
  draggingRef : bool;
  alphaTarget : AlphaTarget;
  ticking : bool;
  node : Position
}.

(** The [start] listener; [active] is [event.active] being non-zero. *)
Definition dragstarted (active : bool) (s : State) : State :=
  {| draggingRef := true;
     alphaTarget := if active then alphaTarget s else Reheated;
     ticking := if active then ticking s else true;
     node := {| x := x (node s); y := y (node s);
                fx := x (node s); fy := y (node s) |} |}.

(** The [drag] listener, with the pointer at [(px, py)]. *)
Definition dragged (s : State) (p : R * R) : State :=
  {| draggingRef := draggingRef s;
     alphaTarget := alphaTarget s;
     ticking := ticking s;
     node := {| x := x (node s); y := y (node s);
                fx := Some (fst p); fy := Some (snd p) |} |}.

(** The [end] listener. *)
Definition dragended (active : bool) (s : State) : State :=
  {| draggingRef := false;
     alphaTarget := if active then alphaTarget s else Rest;
     ticking := ticking s;
     node := {| x := x (node s); y := y (node s);
                fx := None; fy := None |} |}.

(** One gesture: start, any number of moves, end. *)
Definition gesture (active : bool) (moves : list (R * R)) (s : State) : State :=
  dragended active (fold_left dragged moves (dragstarted active s)).

End Coordinates.

Arguments Position : clear implicits.
Arguments State : clear implicits.

End Drag.

(** ** The hook [useGraphVisualization] *)
Module Hook.
Import Graph Lifecycle.

(** [drawGraph(data)] of the hook: guarded by one test, no flow dots. *)
Definition drawGraph (w : World) (data : GraphData) : World :=
  if graphDrawnRef w || negb (svgRef w) then w
  else
    let n := length (gens w) in
    {| mounted := mounted w; svgRef := svgRef w;
       graphDrawnRef := true;
       simulationRef := Some n;
       svgSelection := Some n; gSelection := Some n;
       zoomBehavior := Some n; zoomListener := Some n;
       attached := Some n;
       gens := gens w ++ [{| sim := Running; dots := [] |}] |}.

(** [cleanup()] of the hook: as the cleanup of [GraphLayout], and the drawn
    flag is cleared. *)
Definition cleanup (w : World) : World :=
  let c := Lifecycle.cleanup w in
  {| mounted := mounted c; svgRef := svgRef c;
     graphDrawnRef := false; simulationRef := simulationRef c;
     svgSelection := svgSelection c; gSelection := gSelection c;
     zoomBehavior := zoomBehavior c; zoomListener := zoomListener c;
     attached := attached c; gens := gens c |}.

(** What happens to a component that uses the hook: it calls [drawGraph]
    or [cleanup], or the browser delivers a callback. *)
Inductive Op :=
| Draw (data : GraphData)
| Cleanup
| Deliver (e : Event).

Definition step (w : World) (o : Op) : option World :=
  match o with
  | Draw data => Some (drawGraph w data)
  | Cleanup => Some (cleanup w)
  | Deliver e => if callback e then Lifecycle.step w e else None
  end.

Fixpoint run (w : World) (os : list Op) : option World :=
  match os with
  | [] => Some w
  | o :: r =>
      match step w o with
      | Some w' => run w' r
      | None => None
      end
  end.

(** A simulation that still ticks is the one [simulationRef] holds. *)
Definition onlyReferencedRuns (w : World) : Prop :=
  forall n gn, gens w !! n = Some gn -> sim gn = Running ->
               simulationRef w = Some n.

(** What the operations of the hook keep true. *)
Definition hookInv (w : World) : Prop :=
  svgRef w = true /\
  onlyReferencedRuns w /\
  (forall n, attached w = Some n -> simulationRef w = Some n) /\
  (graphDrawnRef w = false -> simulationRef w = None).

End Hook.

(** ** Vocabulary for what drawing resolves and the effect leaves alone *)
Module Frame.
Import JS Graph Scene.

(** A link end given by id, resolved to the node of that id. *)
Definition resolvedTo (ns : list Node) (r r' : EndRef) : Prop :=
  exists n, r' = ByNode n /\ n ∈ ns /\ id n = endId r.

(** The four attributes the effect writes. *)
Definition lookKeys : list string :=
  ["opacity"; "stroke-opacity"; "stroke"; "stroke-width"].

(** What a run of the effect leaves alone on one element, when its two
    selectors select by [selN] and [selL]. *)
Definition kept (selN selL : Element -> bool) (e e' : Element) : Prop :=
  tag e' = tag e /\ datum e' = datum e /\
  (forall k, k ∉ lookKeys -> attrs e' !! k = attrs e !! k) /\
  (tag e <> circle -> tag e <> line -> selN e = false -> selL e = false ->
   e' = e).

End Frame.

(** ** The interactions table beside the graph *)
Module Table.
Import JS Graph Text Labels.

(** [jsonData?.address?.toLowerCase() ?? inputAddress.toLowerCase()]. *)
Definition contractAddress (jsonData : option GraphData)
    (inputAddress : string) : string :=
  match jsonData with
  | Some data => toLowerCase (address data)
  | None => toLowerCase inputAddress
  end.

(** The [forEach] of [callTypes]: the keys of each edge's [types] are added
    to the set [acc]; [Object.keys] raises ([None]) on an edge without
    [types]. *)
Fixpoint addKeys (es : list Edge) (acc : list string) : option (list string) :=
  match es with
  | [] => Some acc
  | e :: r =>
      match types e with
      | Some ts => addKeys r (fold_left Set_add (map fst ts) acc)
      | None => None
      end
  end.

(** [callTypes], the call-type columns of the table. *)
Definition callTypes (jsonData : option GraphData) : option (list string) :=
  match jsonData with
  | Some data =>
      match edges data with
      | Some es => addKeys es []
      | None => Some []
      end
  | None => Some []
  end.

Inductive InteractionType := Direct | Indirect.

#[global] Instance InteractionType_eq_dec : EqDecision InteractionType.
Proof. solve_decision. Defined.

(** [EnhancedEdge]: the fields of the edge, spread, and three more. *)
Record EnhancedEdge := {
  edge : Edge;
  interactionType : InteractionType;
  sourceName : option Read;
  targetName : option Read
}.

(** The callback of [jsonData.edges.map] in [enhancedEdges]; [names] is
    [jsonData.nodes] and [ca] the contract address. *)
Definition enhance (names : option (gmap string string)) (ca : string)
    (e : Edge) : EnhancedEdge :=
  {| edge := e;
     interactionType :=
       if decide (toLowerCase (source e) = ca) then Direct else Indirect;
     sourceName :=
       orElse truthyRead (lookupName names (toLowerCase (source e)))
              (lookupName names (source e));
     targetName :=
       orElse truthyRead (lookupName names (toLowerCase (target e)))
              (lookupName names (target e)) |}.

Definition enhancedEdges (jsonData : option GraphData)
    (names : option (gmap string string)) (inputAddress : string)
  : list EnhancedEdge :=
  match jsonData with
  | Some data =>
      match edges data with
      | Some es => map (enhance names (contractAddress jsonData inputAddress)) es
      | None => []
      end
  | None => []
  end.

(** The two predicates of [filterEdges]. *)
Definition isDirectRow (ca : string) (r : EnhancedEdge) : bool :=
  bool_decide (interactionType r = Direct) ||
  bool_decide (toLowerCase (source (edge r)) = ca).

Definition matchesQuery (query : string) (r : EnhancedEdge) : bool :=
  includes (toLowerCase (source (edge r))) query ||
  includes (toLowerCase (target (edge r))) query.

(** [filterEdges], with the three values it closes over. *)
Definition filterEdges (showDirectOnly : bool) (ca searchQuery : string)
    (rows : list EnhancedEdge) : list EnhancedEdge :=
  let filteredEdges :=
    if showDirectOnly then List.filter (isDirectRow ca) rows else rows in
  if truthy (trim searchQuery)
  then List.filter (matchesQuery (trim (toLowerCase searchQuery))) filteredEdges
  else filteredEdges.

(** The background of a row. *)
Definition rowBackground (highlightAddress : option string) (e : Edge)
  : string :=
  match highlightAddress with
  | Some h =>
      if truthy h &&
         (bool_decide (toLowerCase (source e) = toLowerCase h) ||
          bool_decide (toLowerCase (target e) = toLowerCase h))
      then "#e8f4fd" else "white"
  | None => "white"
  end.

(** [onClick] of a row: the value it passes to [setHighlightAddress]. *)
Definition rowClick (highlightAddress : option string) (e : Edge)
  : option string :=
  if decide (highlightAddress = Some (toLowerCase (target e)))
  then None
  else Some (toLowerCase (target e)).

End Table.

(** ** Validation of the address and of the block range *)
Module Validation.
Import JS Text.

(** The records [{ isValid: true, ... }] and [{ isValid: false, error }]. *)
Inductive Validation (A : Type) :=
| Valid (value : A)
| Invalid (error : string).

Arguments Valid {A} value.
Arguments Invalid {A} error.

Definition isHex (c : ascii) : bool :=
  let n := nat_of_ascii c in
  (Nat.leb 48 n && Nat.leb n 57) || (Nat.leb 65 n && Nat.leb n 70) ||
  (Nat.leb 97 n && Nat.leb n 102).

Fixpoint allHex (s : string) : bool :=
  match s with
  | EmptyString => true
  | String c r => isHex c && allHex r
  end.

(** [/^0x[a-fA-F0-9]{40}$/.test(s)]. *)
Definition hexPattern (s : string) : bool :=
  match s with
  | String "0" (String "x" r) => allHex r && Nat.eqb (String.length r) 40
  | _ => false
  end.

Section Address.

(** [isAddress] of the [ethers] library: its verdict, or [None] when it
    raises. *)
Variable isAddress : string -> option bool.

Definition validateEthereumAddress (address : string) : Validation string :=
  if negb (truthy address) then Invalid "Address is required"
  else
    let sanitized := toLowerCase (trim address) in
    if negb (startsWith sanitized "0x")
    then Invalid "Address must start with 0x"
    else if negb (Nat.eqb (String.length sanitized) 42)
    then Invalid "Address must be 42 characters long"
    else if negb (hexPattern sanitized)
    then Invalid "Address contains invalid characters"
    else match isAddress sanitized with
         | Some true => Valid sanitized
         | Some false => Invalid "Invalid Ethereum address checksum"
         | None => Invalid "Unable to validate address"
         end.

End Address.

(** The value of a decimal digit. *)
Definition digit (c : ascii) : option Z :=
  let n := nat_of_ascii c in
  if Nat.leb 48 n && Nat.leb n 57 then Some (Z.of_nat n - 48)%Z else None.

(** The longest prefix of decimal digits of [s], read after the digits of
    value [acc]; [seen] tells whether a digit has been read.  [None] when
    there is no digit at all. *)
Fixpoint digits (s : string) (acc : Z) (seen : bool) : option Z :=
  match s with
  | EmptyString => if seen then Some acc else None
  | String c r =>
      match digit c with
      | Some v => digits r (10 * acc + v)%Z true
      | None => if seen then Some acc else None
      end
  end.

(** [parseInt(s, 10)]: leading white space, an optional sign, then the
    longest prefix of digits; [None] is [NaN].  The result is the integer
    read: a JavaScript number holds it exactly up to [2^53], and above
    that it holds a number that is still above [MAX_SAFE_INTEGER]; the
    zero read after a minus sign is the zero. *)
Definition parseInt (s : string) : option Z :=
  match trimStart s with
  | String "-" r => option_map Z.opp (digits r 0 false)
  | String "+" r => digits r 0 false
  | r => digits r 0 false
  end.

Definition MAX_SAFE_INTEGER : Z := 9007199254740991.

Definition validateBlockNumber (blockNumber : string) : Validation Z :=
  if negb (truthy blockNumber) then Invalid "Block number is required"
  else
    match parseInt (trim blockNumber) with
    | None => Invalid "Block number must be a valid number"
    | Some parsed =>
        if (parsed <? 0)%Z then Invalid "Block number must be positive"
        else if (parsed >? MAX_SAFE_INTEGER)%Z
        then Invalid "Block number is too large"
        else Valid parsed
    end.

Definition maxRange : Z := 1000000.

Definition validateBlockRange (fromBlock toBlock : string)
  : Validation (Z * Z) :=
  match validateBlockNumber fromBlock, validateBlockNumber toBlock with
  | Invalid error, _ => Invalid ("From block: " ++ error)
  | Valid _, Invalid error => Invalid ("To block: " ++ error)
  | Valid from, Valid to =>
      if (from >=? to)%Z
      then Invalid "From block must be less than to block"
      else if (to - from >? maxRange)%Z
      then Invalid "Block range too large. Maximum 1000000 blocks allowed."
      else Valid (from, to)
  end.

(** The number a string of decimal digits denotes. *)
Fixpoint decimal (s : string) (acc : Z) : Z :=
  match s with
  | EmptyString => acc
  | String c r => decimal r (10 * acc + (Z.of_nat (nat_of_ascii c) - 48))%Z
  end.

Fixpoint allDigits (s : string) : bool :=
  match s with
  | EmptyString => true
  | String c r => bool_decide (digit c <> None) && allDigits r
  end.

Fixpoint allWhite (s : string) : bool :=
  match s with
  | EmptyString => true
  | String c r => isWhite c && allWhite r
  end.

(** Nothing, or something that does not go on with a digit. *)
Definition noDigitAhead (s : string) : bool :=
  match s with
  | EmptyString => true
  | String c _ => bool_decide (digit c = None)
  end.

End Validation.

(** * Properties *)

(** ** Insertion-ordered sets *)
Module SetFacts.
Import JS Graph.

Lemma filter_all {A} (P : A -> Prop) `{forall x, Decision (P x)} (l : list A) :
  (forall x, x ∈ l -> P x) -> filter P l = l.
Proof.
  induction l as [| a l IH]; intros Hall; [reflexivity |].
  rewrite filter_cons_True by (apply Hall; left).
  f_equal. apply IH. intros x Hx. apply Hall. right. assumption.
Qed.

Lemma filter_none {A} (P : A -> Prop) `{forall x, Decision (P x)} (l : list A) :
  (forall x, x ∈ l -> ~ P x) -> filter P l = [].
Proof.
  induction l as [| a l IH]; intros Hall; [reflexivity |].
  rewrite filter_cons_False by (apply Hall; left).
  apply IH. intros x Hx. apply Hall. right. assumption.
Qed.

Lemma Set_add_elem (s : list string) (x y : string) :
  y ∈ Set_add s x <-> y ∈ s \/ y = x.
Proof.
  unfold Set_add. destruct (decide (x ∈ s)) as [Hin | Hout].
  - split; [tauto | intros [H | ->]; assumption].
  - rewrite elem_of_app, list_elem_of_singleton. tauto.
Qed.

Lemma Set_add_member (s : list string) (x : string) :
  x ∈ s -> Set_add s x = s.
Proof. intros H. unfold Set_add. destruct (decide (x ∈ s)); tauto. Qed.

Lemma Set_add_NoDup (s : list string) (x : string) :
  NoDup s -> NoDup (Set_add s x).
Proof.
  intros Hs. unfold Set_add. destruct (decide (x ∈ s)) as [Hin | Hout]; [assumption |].
  apply NoDup_app. split; [assumption |]. split.
  - intros y Hy Hyx. apply list_elem_of_singleton in Hyx. subst. tauto.
  - apply NoDup_singleton.
Qed.

Lemma first_seen_elem (l : list string) (x : string) :
  x ∈ first_seen l <-> x ∈ l.
Proof.
  induction l as [| a l IH]; simpl; [tauto |].
  rewrite !elem_of_cons, list_elem_of_filter, IH.
  destruct (decide (x = a)); tauto.
Qed.

Lemma first_seen_NoDup (l : list string) : NoDup (first_seen l).
Proof.
  induction l as [| a l IH]; simpl; [constructor |].
  constructor.
  - rewrite list_elem_of_filter. tauto.
  - apply NoDup_filter, IH.
Qed.

(** Adding the members of [l] one by one appends to [acc], in order of
    first appearance, those that [acc] does not hold yet. *)
Lemma fold_Set_add (l acc : list string) :
  fold_left Set_add l acc =
  (acc ++ filter (fun y => y ∉ acc) (first_seen l))%list.
Proof.
  revert acc. induction l as [| x l IH]; intros acc; simpl.
  - rewrite filter_nil, app_nil_r. reflexivity.
  - rewrite IH. unfold Set_add. destruct (decide (x ∈ acc)) as [Hin | Hout].
    + f_equal. rewrite filter_cons_False by (intros Hn; exact (Hn Hin)).
      rewrite list_filter_filter. apply list_filter_iff.
      intros y. simpl. split; [| tauto]. intros Hy. split; [assumption |].
      intros ->. exact (Hy Hin).
    + rewrite <- app_assoc. simpl. f_equal.
      rewrite filter_cons_True by assumption. f_equal.
      rewrite list_filter_filter. apply list_filter_iff.
      intros y. simpl. rewrite elem_of_app, list_elem_of_singleton. tauto.
Qed.

Lemma fold_Set_add_nil (l : list string) :
  fold_left Set_add l [] = first_seen l.
Proof.
  rewrite fold_Set_add. simpl. apply filter_all.
  intros y _. apply not_elem_of_nil.
Qed.

End SetFacts.

(** ** The model builder *)
Module GraphFacts.
Import JS Graph SetFacts.

Lemma edgeLinks_noop (e : Edge) (kvs : list (string * Z)) (acc : list string) :
  source e ∈ acc -> target e ∈ acc ->
  fold_left addLink
    (map (fun tc : string * Z =>
            {| lsource := ById (source e); ltarget := ById (target e);
               type := fst tc; count := snd tc |}) kvs) acc = acc.
Proof.
  intros Hs Ht. induction kvs as [| kv kvs IH]; simpl; [reflexivity |].
  unfold addLink at 2. simpl.
  rewrite (Set_add_member acc (source e)) by assumption.
  rewrite (Set_add_member acc (target e)) by assumption.
  exact IH.
Qed.

Lemma fold_edgeLinks (e : Edge) (acc : list string) :
  fold_left addLink (edgeLinks e) acc =
  if hasKind e then Set_add (Set_add acc (source e)) (target e) else acc.
Proof.
  unfold edgeLinks, hasKind. destruct (entries e) as [| kv kvs]; simpl.
  - reflexivity.
  - unfold addLink at 2. simpl. apply edgeLinks_noop.
    + apply Set_add_elem. left. apply Set_add_elem. right. reflexivity.
    + apply Set_add_elem. right. reflexivity.
Qed.

Lemma fold_links (es : list Edge) (acc : list string) :
  fold_left addLink (flat_map edgeLinks es) acc =
  fold_left Set_add
    (flat_map (fun e => [source e; target e]) (List.filter hasKind es)) acc.
Proof.
  revert acc. induction es as [| e es IH]; intros acc; simpl; [reflexivity |].
  rewrite fold_left_app, fold_edgeLinks.
  destruct (hasKind e); simpl; apply IH.
Qed.

(** The ids in [nodeSet] are the end points of the edges that have a kind,
    in order of first appearance. *)
Lemma nodeSet_first_seen (data : GraphData) :
  nodeSet (links data) = first_seen (endpoints data).
Proof.
  unfold nodeSet, links, endpoints. rewrite fold_links. apply fold_Set_add_nil.
Qed.

Lemma nodes_ids (data : GraphData) :
  map id (nodes data) = nodeSet (links data).
Proof.
  unfold nodes. rewrite map_map. simpl. apply map_id.
Qed.

Lemma endpoints_elem (data : GraphData) (a : string) :
  a ∈ endpoints data <->
  exists e, e ∈ default [] (edges data) /\ hasKind e = true /\
            (a = source e \/ a = target e).
Proof.
  unfold endpoints. rewrite list_elem_of_In, in_flat_map. split.
  - intros [e [He Ha]]. apply filter_In in He. destruct He as [He Hk].
    exists e. rewrite list_elem_of_In. split; [assumption |]. split; [assumption |].
    simpl in Ha. destruct Ha as [<- | [<- | []]]; tauto.
  - intros [e [He [Hk Ha]]]. exists e. rewrite filter_In, <- list_elem_of_In.
    split; [tauto |]. simpl. destruct Ha as [-> | ->]; tauto.
Qed.

Lemma filter_unique (l : list string) (P : string -> Prop)
    `{forall x, Decision (P x)} (a : string) :
  NoDup l -> a ∈ l -> P a -> (forall b, b ∈ l -> P b -> b = a) ->
  filter P l = [a].
Proof.
  intros Hnd. induction Hnd as [| x l Hx Hnd IH]; intros Ha HP Huniq.
  - apply elem_of_nil in Ha. destruct Ha.
  - apply elem_of_cons in Ha. destruct Ha as [-> | Ha].
    + rewrite filter_cons_True by assumption. f_equal.
      apply filter_none. intros b Hb HPb.
      assert (b = x) by (apply Huniq; [apply elem_of_cons; tauto | assumption]).
      subst. tauto.
    + rewrite filter_cons_False.
      * apply IH; [assumption | assumption |].
        intros b Hb. apply Huniq. apply elem_of_cons. tauto.
      * intros HPx. assert (x = a) by (apply Huniq; [apply elem_of_cons; tauto | assumption]).
        subst. tauto.
Qed.

Lemma filter_main (data : GraphData) (ids : list string) :
  filter (fun n => group n = main)
         (map (fun i => {| id := i; group := groupOf data i |}) ids) =
  map (fun i => {| id := i; group := main |})
      (filter (fun i => toLowerCase i = toLowerCase (address data)) ids).
Proof.
  induction ids as [| i ids IH]; simpl; [reflexivity |].
  unfold groupOf at 1.
  destruct (decide (toLowerCase i = toLowerCase (address data))) as [Heq | Hne].
  - rewrite filter_cons_True by reflexivity.
    rewrite (filter_cons_True (fun i => toLowerCase i = toLowerCase (address data)))
      by assumption.
    simpl. f_equal. exact IH.
  - rewrite filter_cons_False by discriminate.
    rewrite (filter_cons_False (fun i => toLowerCase i = toLowerCase (address data)))
      by assumption.
    exact IH.
Qed.

End GraphFacts.

(** ** Claims about the model builder *)
Module BuilderClaims.
Import JS Graph SetFacts GraphFacts Examples.

Example scenario_links :
  links scenario =
  [{| lsource := ById "0xAAA"; ltarget := ById "0xBBB"; type := "call";
      count := 3%Z |}].
Proof. reflexivity. Qed.

Example scenario_nodes :
  nodes scenario =
  [{| id := "0xAAA"; group := main |}; {| id := "0xBBB"; group := other |}].
Proof. vm_compute. reflexivity. Qed.

Example mixedTarget_nodes :
  map id (nodes mixedTarget) = ["0xaa"; "0xBb"; "0xbb"].
Proof. vm_compute. reflexivity. Qed.

(** An edge without kinds expands to no link, and its ends get no node. *)
Example untyped_edge_gives_no_node :
  allEndpoints untyped = ["0xaa"; "0xbb"] /\ links untyped = [] /\
  nodes untyped = [].
Proof. repeat split. Qed.

Lemma one_link_of_kind (e : Edge) (ts : list (string * Z)) (kind : string)
    (c : Z) :
  NoDup (map fst ts) ->
  (kind, c) ∈ ts ->
  filter (fun l => type l = kind)
    (map (fun tc : string * Z =>
            {| lsource := ById (source e); ltarget := ById (target e);
               type := fst tc; count := snd tc |}) ts) =
  [{| lsource := ById (source e); ltarget := ById (target e);
      type := kind; count := c |}].
Proof.
  induction ts as [| [k0 c0] ts IH]; intros Hnd Hin.
  - apply elem_of_nil in Hin. destruct Hin.
  - cbn [map fst] in Hnd. apply NoDup_cons in Hnd. destruct Hnd as [Hk0 Hnd].
    cbn [map fst snd]. apply elem_of_cons in Hin.
    destruct Hin as [[= -> ->] | Hin].
    + rewrite filter_cons_True by reflexivity. f_equal.
      apply filter_none. intros l Hl Hty.
      apply list_elem_of_In, in_map_iff in Hl. destruct Hl as [tc [<- Htc]].
      cbn [type] in Hty. apply Hk0. rewrite <- Hty.
      apply list_elem_of_In, in_map, Htc.
    + assert (Hne : k0 <> kind).
      { intros ->. apply Hk0.
        apply list_elem_of_In, in_map_iff. exists (kind, c).
        split; [reflexivity | apply list_elem_of_In, Hin]. }
      rewrite filter_cons_False by (cbn [type]; assumption).
      apply IH; assumption.
Qed.

Lemma links_count (es : list Edge) :
  length (flat_map edgeLinks es) =
  list_sum (map (fun e => length (default [] (types e))) es).
Proof.
  induction es as [| e es IH]; [reflexivity |].
  cbn [flat_map map]. rewrite length_app, IH.
  unfold edgeLinks, entries. rewrite length_map. reflexivity.
Qed.

(** C7: an edge of the payload whose [types] map has the [k] entries [ts]
    (the keys of a map are pairwise distinct) expands to exactly [k]
    links, the entries of the map in order, each with the edge's source
    and target: for every kind of the map there is exactly one link of
    that kind among them, and it carries the count filed under the kind.
    These links are links of the payload, whose links are those of its
    edges, edge after edge; their number is the number of entries of all
    the maps. *)
Theorem edge_expands_to_one_link_per_kind
    (data : GraphData) (es : list Edge) (e : Edge) (ts : list (string * Z)) :
  edges data = Some es ->
  e ∈ es ->
  types e = Some ts ->
  NoDup (map fst ts) ->
  length (edgeLinks e) = length ts /\
  edgeLinks e =
    map (fun tc : string * Z =>
           {| lsource := ById (source e); ltarget := ById (target e);
              type := fst tc; count := snd tc |}) ts /\
  (forall kind c, (kind, c) ∈ ts ->
     filter (fun l => type l = kind) (edgeLinks e) =
     [{| lsource := ById (source e); ltarget := ById (target e);
         type := kind; count := c |}]) /\
  (forall l, l ∈ edgeLinks e -> l ∈ links data) /\
  links data = concat (map edgeLinks es) /\
  length (links data) =
    list_sum (map (fun e' => length (default [] (types e'))) es).
Proof.
  intros Hes He Hts Hnd.
  assert (Hel : edgeLinks e =
                map (fun tc : string * Z =>
                       {| lsource := ById (source e); ltarget := ById (target e);
                          type := fst tc; count := snd tc |}) ts).
  { unfold edgeLinks, entries. rewrite Hts. reflexivity. }
  split; [rewrite Hel; apply length_map |].
  split; [exact Hel |].
  split; [intros kind c Hin; rewrite Hel; apply one_link_of_kind; assumption |].
  unfold links. rewrite Hes. cbn [default].
  split; [| split].
  - intros l Hl. apply list_elem_of_In, in_flat_map. exists e.
    split; apply list_elem_of_In; assumption.
  - apply flat_map_concat_map.
  - apply links_count.
Qed.

Lemma edge_expands_to_one_link_per_kind_witness :
  length (edgeLinks twoKinds) = 2 /\
  filter (fun l => type l = "delegatecall") (edgeLinks twoKinds) =
  [{| lsource := ById "0xaa"; ltarget := ById "0xbb";
      type := "delegatecall"; count := 1 |}].
Proof.
  destruct (edge_expands_to_one_link_per_kind
              {| address := "0xaa"; edges := Some [twoKinds] |} [twoKinds]
              twoKinds [("call", 3%Z); ("delegatecall", 1%Z)]) as (H1 & _ & H3 & _).
  - reflexivity.
  - left.
  - reflexivity.
  - apply NoDup_cons. split.
    + intros H. apply list_elem_of_singleton in H. discriminate.
    + apply NoDup_singleton.
  - split; [exact H1 |]. apply H3. right. left.
Defined.

(** C8: a payload whose edge list is empty is drawn without failure, with
    no link and no node, and the component shows the "no dependencies"
    overlay. *)
Theorem empty_edges_is_valid (data : GraphData) :
  edges data = Some [] ->
  links data = [] /\ nodes data = [] /\
  Scene.drawn data = Some (Scene.scene [] []) /\
  showsEmptyOverlay (Some data) = true.
Proof.
  intros He.
  assert (Hl : links data = []) by (unfold links; rewrite He; reflexivity).
  assert (Hn : nodes data = []) by (unfold nodes; rewrite Hl; reflexivity).
  split; [assumption |]. split; [assumption |]. split.
  - unfold Scene.drawn. rewrite Hn, Hl. reflexivity.
  - unfold showsEmptyOverlay. rewrite He. reflexivity.
Qed.

Lemma empty_edges_is_valid_witness :
  edges (noEdges "0xAAA") = Some [] /\
  links (noEdges "0xAAA") = [] /\ nodes (noEdges "0xAAA") = [] /\
  Scene.drawn (noEdges "0xAAA") = Some (Scene.scene [] []) /\
  showsEmptyOverlay (Some (noEdges "0xAAA")) = true.
Proof.
  split; [reflexivity |].
  apply (empty_edges_is_valid (noEdges "0xAAA")). reflexivity.
Defined.

(** C1, as stated, fails: the same target written in two casings gives two
    nodes for one lower-case address. *)
Lemma mixed_case_breaks_one_node_per_address :
  ~ Stated.one_node_per_lowercase_address mixedTarget.
Proof. unfold Stated.one_node_per_lowercase_address. vm_compute. discriminate. Qed.

(** C1, amended: the node ids are the distinct strings (compared exactly)
    that are source or target of an edge with at least one kind, one node
    per string, in order of first appearance; when no two of these strings
    differ only by letter case, there is one node per lower-case address. *)
Theorem nodes_are_first_seen_endpoints (data : GraphData) :
  map id (nodes data) = first_seen (endpoints data) /\
  NoDup (map id (nodes data)) /\
  (forall a, a ∈ map id (nodes data) <->
             exists e, e ∈ default [] (edges data) /\ hasKind e = true /\
                       (a = source e \/ a = target e)) /\
  ((forall a b, a ∈ endpoints data -> b ∈ endpoints data ->
                toLowerCase a = toLowerCase b -> a = b) ->
   NoDup (map (fun n => toLowerCase (id n)) (nodes data))).
Proof.
  assert (Hids : map id (nodes data) = first_seen (endpoints data))
    by (rewrite nodes_ids; apply nodeSet_first_seen).
  split; [assumption |]. split; [| split].
  - rewrite Hids. apply first_seen_NoDup.
  - intros a. rewrite Hids, first_seen_elem. apply endpoints_elem.
  - intros Hinj.
    rewrite <- (map_map id toLowerCase), Hids.
    change (NoDup (toLowerCase <$> first_seen (endpoints data))). apply NoDup_fmap_2_strong; [| apply first_seen_NoDup].
    intros a b Ha Hb. apply Hinj; apply first_seen_elem; assumption.
Qed.

Lemma nodes_are_first_seen_endpoints_witness :
  map id (nodes scenario) = ["0xAAA"; "0xBBB"] /\
  NoDup (map (fun n => toLowerCase (id n)) (nodes scenario)).
Proof.
  split.
  - exact (proj1 (nodes_are_first_seen_endpoints scenario)).
  - apply (proj2 (proj2 (proj2 (nodes_are_first_seen_endpoints scenario)))).
    intros a b Ha Hb.
    apply list_elem_of_In in Ha. apply list_elem_of_In in Hb.
    simpl in Ha, Hb.
    destruct Ha as [<- | [<- | []]]; destruct Hb as [<- | [<- | []]];
      vm_compute; congruence.
Defined.

(** C6, as stated, fails: the subject written in two casings gives two
    [main] nodes although the subject address is an edge end. *)
Lemma mixed_case_breaks_one_main :
  ~ Stated.one_main_when_present mixedSubject.
Proof.
  unfold Stated.one_main_when_present. intros H.
  assert (Hin : address mixedSubject ∈ allEndpoints mixedSubject)
    by (vm_compute; left).
  specialize (H Hin). vm_compute in H. discriminate.
Qed.

(** C6, amended: a built node has group [main] exactly when its id equals
    the subject address up to letter case; when the subject address is, up
    to letter case, an end of an edge with at least one kind, and is
    written there in one casing only, exactly one node has group [main]. *)
Theorem main_iff_matches_address (data : GraphData) :
  (forall n, n ∈ nodes data ->
     (group n = main <-> toLowerCase (id n) = toLowerCase (address data))) /\
  (forall a,
     a ∈ endpoints data ->
     toLowerCase a = toLowerCase (address data) ->
     (forall b, b ∈ endpoints data ->
                toLowerCase b = toLowerCase (address data) -> b = a) ->
     filter (fun n => group n = main) (nodes data) =
     [{| id := a; group := main |}]).
Proof.
  split.
  - intros n Hn. unfold nodes in Hn.
    apply list_elem_of_In, in_map_iff in Hn. destruct Hn as [i [<- _]].
    simpl. unfold groupOf.
    destruct (decide (toLowerCase i = toLowerCase (address data)));
      split; intros; [assumption | reflexivity | discriminate | tauto].
  - intros a Ha Hlow Huniq. unfold nodes. rewrite filter_main.
    rewrite nodeSet_first_seen.
    rewrite (filter_unique (first_seen (endpoints data)) _ a).
    + reflexivity.
    + apply first_seen_NoDup.
    + apply first_seen_elem. assumption.
    + assumption.
    + intros b Hb. apply Huniq. apply first_seen_elem. assumption.
Qed.

Lemma main_iff_matches_address_witness :
  filter (fun n => group n = main) (nodes scenario) =
  [{| id := "0xAAA"; group := main |}].
Proof.
  apply (proj2 (main_iff_matches_address scenario) "0xAAA").
  - vm_compute. left.
  - reflexivity.
  - intros b Hb. apply list_elem_of_In in Hb. simpl in Hb.
    destruct Hb as [<- | [<- | []]]; [reflexivity |].
    vm_compute. discriminate.
Defined.

End BuilderClaims.

(** ** Strings and class tokens *)
Module TokenFacts.
Import JS Scene.

Lemma append_cons (c : ascii) (s w : string) :
  String c s ++ w = String c (s ++ w).
Proof. reflexivity. Qed.

Lemma append_nil_l (w : string) : "" ++ w = w.
Proof. reflexivity. Qed.

Ltac norm_append := repeat (rewrite append_cons || rewrite append_nil_l).

Lemma append_nil_r (s : string) : s ++ "" = s.
Proof.
  induction s as [| c s IH]; [reflexivity |].
  rewrite append_cons, IH. reflexivity.
Qed.

Lemma append_snoc (s w : string) (c : ascii) :
  (s ++ String c "") ++ w = s ++ String c w.
Proof.
  induction s as [| b s IH]; [reflexivity |].
  rewrite !append_cons, IH. reflexivity.
Qed.

Lemma isSpace_lower (c : ascii) : isSpace (lower_ascii c) = isSpace c.
Proof.
  destruct c as [[] [] [] [] [] [] [] []]; vm_compute; reflexivity.
Qed.

Lemma noSpace_lower (s : string) : noSpace (toLowerCase s) = noSpace s.
Proof.
  induction s as [| c s IH]; simpl; [reflexivity |].
  rewrite isSpace_lower, IH. reflexivity.
Qed.

(** A string without white space is read as part of the current token. *)
Lemma tokens_noSpace (w r cur : string) :
  noSpace w = true -> tokens (w ++ r) cur = tokens r (cur ++ w).
Proof.
  revert cur. induction w as [| c w IH]; intros cur Hw.
  - rewrite append_nil_l, append_nil_r. reflexivity.
  - simpl in Hw. apply andb_true_iff in Hw. destruct Hw as [Hc Hw].
    apply negb_true_iff in Hc. rewrite append_cons. simpl.
    rewrite Hc, IH by assumption.
    rewrite append_snoc. reflexivity.
Qed.

Lemma tokens_one (p w : string) (c : ascii) :
  noSpace w = true ->
  tokens w (String c p) = [String c p ++ w].
Proof.
  intros Hw. rewrite <- (append_nil_r w) at 1.
  rewrite tokens_noSpace by assumption. reflexivity.
Qed.

(** The class of a node circle is one token. *)
Lemma tokens_node (x : string) :
  noSpace x = true -> tokens ("node-" ++ x) "" = ["node-" ++ x].
Proof.
  intros Hx. norm_append. simpl. norm_append.
  rewrite tokens_one by assumption. norm_append. reflexivity.
Qed.

(** The class of a line is two tokens. *)
Lemma tokens_link (x y : string) :
  noSpace x = true -> noSpace y = true ->
  tokens ("link-" ++ x ++ " link-" ++ y) "" = ["link-" ++ x; "link-" ++ y].
Proof.
  intros Hx Hy. norm_append. simpl. norm_append.
  rewrite tokens_noSpace by assumption.
  norm_append. simpl. norm_append.
  rewrite tokens_one by assumption. norm_append. reflexivity.
Qed.

Lemma append_inj (p x y : string) : p ++ x = p ++ y -> x = y.
Proof.
  induction p as [| c p IH]; [tauto |].
  rewrite !append_cons. intros H. injection H as H. apply IH, H.
Qed.

End TokenFacts.

(** ** The highlight effect, element by element *)
Module SceneFacts.
Import JS Graph Scene TokenFacts.

Lemma attrIf_eq (sel : Element -> bool) (k v : string) (e : Element) :
  attrIf sel k v e =
  {| tag := tag e;
     attrs := if sel e then <[k := v]> (attrs e) else attrs e;
     datum := datum e |}.
Proof. unfold attrIf, setAttr. destruct (sel e), e; reflexivity. Qed.

Lemma tag_attrIf sel k v e : tag (attrIf sel k v e) = tag e.
Proof. rewrite attrIf_eq. reflexivity. Qed.

Lemma datum_attrIf sel k v e : datum (attrIf sel k v e) = datum e.
Proof. rewrite attrIf_eq. reflexivity. Qed.

Lemma isTag_attrIf t sel k v e : isTag t (attrIf sel k v e) = isTag t e.
Proof. unfold isTag. rewrite tag_attrIf. reflexivity. Qed.

Lemma classList_setAttr (k v : string) (e : Element) :
  k <> "class" -> classList (setAttr k v e) = classList e.
Proof.
  intros Hk. unfold classList, setAttr. simpl.
  rewrite lookup_insert_ne by assumption. reflexivity.
Qed.

Lemma hasClass_setAttr c k v e :
  k <> "class" -> hasClass c (setAttr k v e) = hasClass c e.
Proof. intros Hk. unfold hasClass. rewrite classList_setAttr by assumption. reflexivity. Qed.

Lemma hasClass_attrIf c sel k v e :
  k <> "class" -> hasClass c (attrIf sel k v e) = hasClass c e.
Proof.
  intros Hk. unfold attrIf. destruct (sel e); [| reflexivity].
  apply hasClass_setAttr, Hk.
Qed.

Lemma isTag_resetElem t e : isTag t (resetElem e) = isTag t e.
Proof. unfold resetElem. rewrite !isTag_attrIf. reflexivity. Qed.

Lemma hasClass_resetElem c e : hasClass c (resetElem e) = hasClass c e.
Proof. unfold resetElem. rewrite !hasClass_attrIf by discriminate. reflexivity. Qed.

Lemma datum_resetElem e : datum (resetElem e) = datum e.
Proof. unfold resetElem. rewrite !datum_attrIf. reflexivity. Qed.

(** The conditions of the effect, read on the element it starts from. *)
Ltac on_start :=
  rewrite ?isTag_attrIf, ?datum_attrIf, ?isTag_resetElem, ?datum_resetElem;
  rewrite ?hasClass_attrIf by discriminate;
  rewrite ?hasClass_resetElem.

Lemma attrs_attrIf sel k v e :
  attrs (attrIf sel k v e) = if sel e then <[k := v]> (attrs e) else attrs e.
Proof. rewrite attrIf_eq. reflexivity. Qed.

Lemma tag_resetElem e : tag (resetElem e) = tag e.
Proof. unfold resetElem. rewrite !tag_attrIf. reflexivity. Qed.

Lemma attrs_resetElem (e : Element) :
  attrs (resetElem e) =
  let m1 := if isTag circle e
            then <["stroke-width" := "1.5"]> (<["opacity" := "1"]> (attrs e))
            else attrs e in
  if isTag line e
  then <["stroke" := "#999"]> (<["stroke-opacity" := "0.6"]> m1)
  else m1.
Proof.
  unfold resetElem. rewrite !attrs_attrIf. on_start. simpl.
  destruct (isTag line e), (isTag circle e); reflexivity.
Qed.

(** What a successful run of the effect leaves on one element. *)
Lemma focusElem_inv (data : GraphData) (a : string) (e e' : Element) :
  focusElem data a e = Some e' ->
  tag e' = tag e /\ datum e' = datum e /\
  attrs e' =
    focusAttrs data (isTag circle e) (isTag line e)
      (hasClass ("node-" ++ a) e) (hasClass ("link-" ++ a) e)
      (datum e) (attrs e).
Proof.
  unfold focusElem, strokeElem. on_start.
  set (x := attrIf _ "stroke-width" "3" _).
  assert (Ht : tag x = tag e)
    by (unfold x; rewrite !tag_attrIf; apply tag_resetElem).
  assert (Hd : datum x = datum e)
    by (unfold x; rewrite !datum_attrIf; apply datum_resetElem).
  assert (Hm : attrs x =
               focusAttrs data (isTag circle e) (isTag line e)
                 (hasClass ("node-" ++ a) e) false (datum e) (attrs e)).
  { unfold x. rewrite !attrs_attrIf. on_start.
    rewrite attrs_resetElem. unfold focusAttrs. rewrite andb_false_r. simpl.
    destruct (isTag circle e), (isTag line e), (hasClass ("node-" ++ a) e);
      reflexivity. }
  clearbody x.
  destruct (isTag line e) eqn:HL; destruct (hasClass ("link-" ++ a) e) eqn:HK;
    cbn [andb].
  - destruct (endsOf (datum e)) as [st |] eqn:Hdt; try discriminate.
    intros [= <-]. unfold setAttr. cbn [tag attrs datum]. rewrite Hm.
    split; [assumption |]. split; [congruence |].
    unfold focusAttrs. cbn [andb]. rewrite Hdt. reflexivity.
  - intros [= <-]. rewrite Hm. tauto.
  - intros [= <-]. rewrite Hm. tauto.
  - intros [= <-]. rewrite Hm. tauto.
Qed.

(** The effect raises on no element whose lines carry a link. *)
Lemma focusElem_defined (data : GraphData) (a : string) (e : Element) :
  (tag e = line -> exists l, datum e = LinkDatum l) ->
  exists e', focusElem data a e = Some e'.
Proof.
  intros Hline. unfold focusElem, strokeElem. on_start.
  destruct (isTag line e && hasClass ("link-" ++ a) e) eqn:Hsel; [| eauto].
  apply andb_true_iff in Hsel. destruct Hsel as [Hl _].
  unfold isTag in Hl. apply bool_decide_eq_true in Hl.
  destruct (Hline Hl) as [l ->]. cbn [endsOf]. eauto.
Qed.

Lemma resetAll_map (d : DOM) : resetAll d = map resetElem d.
Proof. unfold resetAll, attrAll, resetElem. rewrite !map_map. reflexivity. Qed.

Lemma strokeLinks_map (data : GraphData) (a : string)
    (f : Element -> Element) (d d' : DOM) :
  strokeLinks data a (map f d) = Some d' <->
  Forall2 (fun e e' => strokeElem data a (f e) = Some e') d d'.
Proof.
  revert d'. induction d as [| e d IH]; intros d'.
  - cbn [map strokeLinks]. split.
    + intros [= <-]. constructor.
    + intros H. inversion H. reflexivity.
  - cbn [map strokeLinks].
    destruct (strokeElem data a (f e)) as [e1 |] eqn:He.
    + destruct (strokeLinks data a (map f d)) as [r1 |] eqn:Hr.
      * split.
        -- intros [= <-]. constructor; [assumption |]. apply IH. reflexivity.
        -- intros H. inversion H as [| ? e2 ? r2 He2 Hr2]; subst.
           rewrite He in He2. injection He2 as <-.
           apply IH in Hr2. injection Hr2 as <-. reflexivity.
      * split; [discriminate |].
        intros H. inversion H as [| ? e2 ? r2 He2 Hr2]; subst.
        apply IH in Hr2. discriminate.
    + split; [discriminate |].
      intros H. inversion H as [| ? e2 ? r2 He2 Hr2]; subst.
      rewrite He in He2. discriminate.
Qed.

(** The focus branch of the effect works element by element. *)
Lemma focusOn_elementwise (data : GraphData) (a : string) (d d' : DOM) :
  focusOn data a (resetAll d) = Some d' <->
  Forall2 (fun e e' => focusElem data a e = Some e') d d'.
Proof.
  rewrite resetAll_map. unfold focusOn, attrAll. rewrite !map_map.
  apply strokeLinks_map.
Qed.

(** *** Attribute look-ups after a focused run *)

Ltac lookups :=
  rewrite ?lookup_insert; repeat case_decide; try reflexivity; try congruence;
  try discriminate.



Lemma focusAttrs_opacity data n k dt (m : gmap string string) :
  focusAttrs data true false n k dt m !! "opacity" =
  Some (if n then "1" else "0.2").
Proof. unfold focusAttrs. destruct n, k, dt; cbn [andb endsOf]; lookups. Qed.

Lemma focusAttrs_stroke data c n k lk (m : gmap string string) :
  focusAttrs data c true n k (LinkDatum lk) m !! "stroke-opacity" =
    Some (if k then "1" else "0.1") /\
  focusAttrs data c true n k (LinkDatum lk) m !! "stroke" =
    Some (if k then strokeOf data lk else "#999").
Proof.
  unfold focusAttrs, strokeOf. cbn [endsOf].
  destruct c, n, k; cbn [andb]; split; lookups.
Qed.

Lemma element_ext (e1 e2 : Element) :
  tag e1 = tag e2 -> attrs e1 = attrs e2 -> datum e1 = datum e2 -> e1 = e2.
Proof.
  destruct e1, e2. cbn [tag attrs datum]. intros -> -> ->. reflexivity.
Qed.


Lemma isTag_ext (t : Tag) (e1 e2 : Element) :
  tag e1 = tag e2 -> isTag t e1 = isTag t e2.
Proof. intros H. unfold isTag. rewrite H. reflexivity. Qed.

(** The effect raises on an element exactly when it selects a line that
    has no datum. *)
Lemma focusElem_some_iff (data : GraphData) (a : string) (e : Element) :
  (exists e', focusElem data a e = Some e') <->
  (isTag line e && hasClass ("link-" ++ a) e = true -> datum e <> NoDatum).
Proof.
  unfold focusElem, strokeElem. on_start.
  destruct (isTag line e && hasClass ("link-" ++ a) e).
  - destruct (datum e) as [| l | n]; cbn [endsOf]; split.
    + intros [e' He']. discriminate.
    + intros H. destruct (H eq_refl). reflexivity.
    + discriminate.
    + eauto.
    + discriminate.
    + eauto.
  - split; [discriminate | eauto].
Qed.


Lemma resetElem_idem (e : Element) : resetElem (resetElem e) = resetElem e.
Proof.
  apply element_ext.
  - rewrite !tag_resetElem. reflexivity.
  - rewrite (attrs_resetElem (resetElem e)), !isTag_resetElem, attrs_resetElem.
    cbv zeta. apply map_eq. intros key.
    destruct (isTag circle e), (isTag line e); lookups.
  - rewrite !datum_resetElem. reflexivity.
Qed.



(** The colour the callback gives a line that touches the focus. *)
Lemma strokeOf_direct (data : GraphData) (l : Link) :
  strokeOf data l = if decide (direct data l) then "#ff6666" else "#ff9933".
Proof.
  unfold strokeOf, strokeOfEnds, direct. cbn [fst snd].
  destruct (decide _) as [[H | H] | H].
  - rewrite (bool_decide_eq_true_2 _ H). reflexivity.
  - rewrite (bool_decide_eq_true_2 _ H), orb_true_r. reflexivity.
  - rewrite !bool_decide_eq_false_2 by tauto. reflexivity.
Qed.

(** An element whose classes say who it is looks focused after the run. *)
Lemma focusElem_focused (data : GraphData) (a : string) (e e' : Element) :
  focusElem data a e = Some e' ->
  (forall n, tag e = circle -> datum e = NodeDatum n ->
     hasClass ("node-" ++ a) e = bool_decide (toLowerCase (id n) = a)) ->
  (forall l, tag e = line -> datum e = LinkDatum l ->
     hasClass ("link-" ++ a) e = bool_decide (touches a l)) ->
  focused data a e e'.
Proof.
  intros He Hnode Hlink.
  destruct (focusElem_inv _ _ _ _ He) as (Ht & Hd & Hm).
  unfold focused. split; [assumption |]. split; [assumption |]. split.
  - intros n Htag Hdat. rewrite Hm.
    assert (HC : isTag circle e = true)
      by (unfold isTag; rewrite Htag; reflexivity).
    assert (HL : isTag line e = false)
      by (unfold isTag; rewrite Htag; reflexivity).
    rewrite HC, HL, focusAttrs_opacity, (Hnode n Htag Hdat).
    destruct (decide (toLowerCase (id n) = a)) as [Heq | Hne].
    + rewrite (bool_decide_eq_true_2 _ Heq). reflexivity.
    + rewrite (bool_decide_eq_false_2 _ Hne). reflexivity.
  - intros l Htag Hdat. rewrite Hm, Hdat.
    assert (HL : isTag line e = true)
      by (unfold isTag; rewrite Htag; reflexivity).
    rewrite HL.
    destruct (focusAttrs_stroke data (isTag circle e)
                (hasClass ("node-" ++ a) e) (hasClass ("link-" ++ a) e) l
                (attrs e)) as [-> ->].
    rewrite (Hlink l Htag Hdat), strokeOf_direct.
    destruct (decide (touches a l)) as [Heq | Hne].
    + rewrite (bool_decide_eq_true_2 _ Heq). split; reflexivity.
    + rewrite (bool_decide_eq_false_2 _ Hne). split; reflexivity.
Qed.

(** *** The scene [drawGraph] renders *)

Lemma endLower_lower (r : EndRef) : endLower r = toLowerCase (endId r).
Proof.
  destruct r as [s | n]; [reflexivity |]. simpl.
  destruct (id n); reflexivity.
Qed.

Lemma find_by_id (ns : list Node) (s : string) :
  s ∈ map id ns ->
  exists n, List.find (fun n => bool_decide (id n = s)) ns = Some n /\ id n = s.
Proof.
  induction ns as [| n ns IH]; cbn [map List.find]; intros Hs.
  - apply elem_of_nil in Hs. destruct Hs.
  - destruct (bool_decide (id n = s)) eqn:Hn.
    + apply bool_decide_eq_true in Hn. eauto.
    + apply bool_decide_eq_false in Hn. apply elem_of_cons in Hs.
      destruct Hs as [Hs | Hs]; [congruence | apply IH, Hs].
Qed.

Lemma resolveEnd_ok (ns : list Node) (r : EndRef) :
  endId r ∈ map id ns ->
  exists r', resolveEnd ns r = Some r' /\ endId r' = endId r.
Proof.
  destruct r as [s | n]; cbn [resolveEnd endId]; intros Hs.
  - destruct (find_by_id ns s Hs) as [n [-> Hn]]. simpl. eauto.
  - eauto.
Qed.

Lemma forceLink_ok (ns : list Node) (ls : list Link) :
  (forall l, l ∈ ls ->
     endId (lsource l) ∈ map id ns /\ endId (ltarget l) ∈ map id ns) ->
  exists ls',
    forceLink ns ls = Some ls' /\
    Forall2 (fun l l' =>
               endId (lsource l') = endId (lsource l) /\
               endId (ltarget l') = endId (ltarget l) /\
               type l' = type l /\ count l' = count l) ls ls'.
Proof.
  induction ls as [| l ls IH]; intros Hends; cbn [forceLink].
  - exists []. split; [reflexivity | constructor].
  - destruct (Hends l) as [Hs Ht]; [left |].
    destruct (resolveEnd_ok ns _ Hs) as [s' [Hs' Hsid]].
    destruct (resolveEnd_ok ns _ Ht) as [t' [Ht' Htid]].
    destruct IH as [ls' [Hls' HF]].
    { intros l0 Hl0. apply Hends. right. assumption. }
    unfold resolveLink. rewrite Hs', Ht', Hls'.
    eexists. split; [reflexivity |].
    constructor; [| assumption]. simpl. tauto.
Qed.

Lemma links_ends (data : GraphData) (l : Link) :
  l ∈ links data ->
  endId (lsource l) ∈ endpoints data /\ endId (ltarget l) ∈ endpoints data.
Proof.
  unfold links. rewrite list_elem_of_In, in_flat_map.
  intros [e [He Hl]]. unfold edgeLinks in Hl. apply in_map_iff in Hl.
  destruct Hl as [tc [<- Htc]]. cbn [lsource ltarget endId].
  assert (Hk : hasKind e = true).
  { unfold hasKind. destruct (entries e); [destruct Htc | reflexivity]. }
  split; apply GraphFacts.endpoints_elem; exists e;
    (split; [apply list_elem_of_In; assumption | tauto]).
Qed.

Lemma nodes_ids_endpoints (data : GraphData) (s : string) :
  s ∈ map id (nodes data) <-> s ∈ endpoints data.
Proof.
  rewrite GraphFacts.nodes_ids, GraphFacts.nodeSet_first_seen.
  apply SetFacts.first_seen_elem.
Qed.

(** [drawGraph] never fails to resolve the ends of its links. *)
Lemma drawn_defined (data : GraphData) :
  exists ls',
    drawn data = Some (scene (nodes data) ls') /\
    Forall (fun l' => endId (lsource l') ∈ endpoints data /\
                      endId (ltarget l') ∈ endpoints data) ls'.
Proof.
  destruct (forceLink_ok (nodes data) (links data)) as [ls' [Hls' HF]].
  { intros l Hl. rewrite !nodes_ids_endpoints. apply links_ends, Hl. }
  exists ls'. unfold drawn. rewrite Hls'. split; [reflexivity |].
  assert (Hsrc : Forall (fun l => endId (lsource l) ∈ endpoints data /\
                                  endId (ltarget l) ∈ endpoints data)
                        (links data))
    by (apply Forall_forall; intros l Hl; apply links_ends, Hl).
  clear Hls'. induction HF as [| l l' ls ls' (Hs & Ht & _) _ IH];
    [constructor |].
  inversion Hsrc as [| ? ? [Hl1 Hl2] Hrest]; subst.
  constructor; [rewrite Hs, Ht; tauto | apply IH, Hrest].
Qed.

(** The elements of a scene: plain containers and labels, one line and one
    flow dot per link, one circle per node. *)
Lemma scene_elem (ns : list Node) (ls : list Link) (e : Element) :
  e ∈ scene ns ls ->
  (tag e <> line /\ tag e <> circle) \/
  (exists l, l ∈ ls /\ e = lineOf l) \/
  (exists l, l ∈ ls /\ e = flowDotOf l) \/
  (exists n, n ∈ ns /\ e = circleOf n).
Proof.
  unfold scene. repeat (rewrite elem_of_cons || rewrite elem_of_app).
  rewrite !list_elem_of_In, !in_map_iff.
  intros [-> | [-> | [-> | [[l [<- Hl]] | [-> | [[l [<- Hl]] | [-> |
            [[n [<- Hn]] | [-> | [n [<- Hn]]]]]]]]]]].
  all: try (left; split; discriminate).
  - right. left. exists l. rewrite list_elem_of_In. tauto.
  - right. right. left. exists l. rewrite list_elem_of_In. tauto.
  - right. right. right. exists n. rewrite list_elem_of_In. tauto.
Qed.

Lemma class_lineOf (l : Link) :
  attrs (lineOf l) !! "class" =
  Some ("link-" ++ endLower (lsource l) ++ " link-" ++ endLower (ltarget l)).
Proof. unfold lineOf, mkElement. cbn [attrs]. apply lookup_insert_eq. Qed.

Lemma class_circleOf (n : Node) :
  attrs (circleOf n) !! "class" = Some ("node-" ++ toLowerCase (id n)).
Proof.
  unfold circleOf, mkElement. cbn [attrs].
  unfold list_to_map. cbn [foldr fst snd].
  rewrite !lookup_insert_ne by discriminate. apply lookup_insert_eq.
Qed.

(** A line is selected by [line.link-a] exactly when it touches [a]. *)
Lemma hasClass_lineOf (a : string) (l : Link) :
  noSpace (endLower (lsource l)) = true ->
  noSpace (endLower (ltarget l)) = true ->
  hasClass ("link-" ++ a) (lineOf l) = bool_decide (touches a l).
Proof.
  intros Hs Ht. unfold hasClass, classList. rewrite class_lineOf.
  rewrite tokens_link by assumption. apply bool_decide_ext.
  unfold touches. rewrite !elem_of_cons, elem_of_nil.
  split.
  - intros [H | [H | []]]; apply append_inj in H; auto.
  - intros [<- | <-]; auto.
Qed.

(** A circle is selected by [.node-a] exactly when the lower-cased id of
    its node is [a]. *)
Lemma hasClass_circleOf (a : string) (n : Node) :
  noSpace (id n) = true ->
  hasClass ("node-" ++ a) (circleOf n) = bool_decide (toLowerCase (id n) = a).
Proof.
  intros Hn. unfold hasClass, classList. rewrite class_circleOf.
  rewrite tokens_node by (rewrite noSpace_lower; assumption).
  apply bool_decide_ext. rewrite list_elem_of_singleton. split.
  - intros H. apply append_inj in H. auto.
  - intros <-. reflexivity.
Qed.

Lemma Forall2_choose {A} (P Q : A -> A -> Prop) (l : list A) :
  (forall x, x ∈ l -> exists y, P x y /\ Q x y) ->
  exists l', Forall2 P l l' /\ Forall2 Q l l'.
Proof.
  induction l as [| x l IH]; intros H.
  - exists []. split; constructor.
  - destruct (H x) as [y [HP HQ]]; [left |].
    destruct IH as [l' [HPs HQs]].
    { intros z Hz. apply H. right. assumption. }
    exists (y :: l'). split; constructor; assumption.
Qed.

(** Every element of a scene whose ids are free of white space is left
    looking focused by the effect. *)
Lemma scene_focused (data : GraphData) (a : string)
    (ns : list Node) (ls : list Link) (e : Element) :
  (forall n, n ∈ ns -> noSpace (id n) = true) ->
  (forall l, l ∈ ls -> noSpace (endId (lsource l)) = true /\
                       noSpace (endId (ltarget l)) = true) ->
  e ∈ scene ns ls ->
  exists e', focusElem data a e = Some e' /\ focused data a e e'.
Proof.
  intros Hns Hls He.
  assert (Hdef : exists e', focusElem data a e = Some e').
  { apply focusElem_some_iff. intros Hsel.
    apply andb_true_iff in Hsel. destruct Hsel as [Hline _].
    unfold isTag in Hline. apply bool_decide_eq_true in Hline.
    destruct (scene_elem ns ls e He)
      as [[Hnl _] | [[l [_ ->]] | [[l [_ ->]] | [n [_ ->]]]]].
    - contradiction.
    - discriminate.
    - discriminate.
    - discriminate. }
  destruct Hdef as [e' He']. exists e'. split; [assumption |].
  apply focusElem_focused; [assumption | |].
  - intros n Htag Hdat.
    destruct (scene_elem ns ls e He)
      as [[_ Hnc] | [[l [_ ->]] | [[l [_ ->]] | [m [Hm ->]]]]].
    + contradiction.
    + discriminate.
    + discriminate.
    + injection Hdat as <-. apply hasClass_circleOf, Hns, Hm.
  - intros l Htag Hdat.
    destruct (scene_elem ns ls e He)
      as [[Hnl _] | [[k [Hk ->]] | [[k [_ ->]] | [m [_ ->]]]]].
    + contradiction.
    + injection Hdat as <-. destruct (Hls k Hk) as [Hs Ht].
      apply hasClass_lineOf; rewrite endLower_lower, noSpace_lower; assumption.
    + discriminate.
    + discriminate.
Qed.

(** Clearing after a focused run undoes it, on an element whose node class
    sits on a circle. *)
Lemma resetElem_after_focus data a (e e' : Element) :
  focusElem data a e = Some e' ->
  (hasClass ("node-" ++ a) e = true -> isTag circle e = true) ->
  resetElem e' = resetElem e.
Proof.
  intros He Hn.
  destruct (focusElem_inv _ _ _ _ He) as (Ht & Hd & Hm).
  apply element_ext.
  - rewrite !tag_resetElem. assumption.
  - rewrite (attrs_resetElem e'), (attrs_resetElem e),
      (isTag_ext circle e' e Ht), (isTag_ext line e' e Ht), Hm.
    cbv zeta. apply map_eq. intros key. unfold focusAttrs.
    destruct (isTag circle e), (isTag line e),
      (hasClass ("node-" ++ a) e), (hasClass ("link-" ++ a) e),
      (endsOf (datum e));
      cbn [andb]; try (specialize (Hn eq_refl); discriminate); lookups.
  - rewrite !datum_resetElem. assumption.
Qed.

Lemma resetAll_idem (d : DOM) : resetAll (resetAll d) = resetAll d.
Proof.
  rewrite !resetAll_map, map_map. apply map_ext. intros e.
  apply resetElem_idem.
Qed.

(** The effect reads of the scene only what a reset leaves of it. *)
Lemma highlightEffect_reset (data : GraphData) (h : option string)
    (d1 d2 : DOM) :
  resetAll d1 = resetAll d2 ->
  highlightEffect (Some data) h d1 = highlightEffect (Some data) h d2.
Proof. intros H. unfold highlightEffect. rewrite H. reflexivity. Qed.

Lemma node_class_not_link (a x y : string) :
  "node-" ++ a ∉ ["link-" ++ x; "link-" ++ y].
Proof.
  rewrite !not_elem_of_cons. norm_append.
  split; [discriminate |]. split; [discriminate |]. apply not_elem_of_nil.
Qed.

(** In a scene, the node class sits on circles only. *)
Lemma scene_node_class (a : string) (ns : list Node) (ls : list Link)
    (e : Element) :
  (forall l, l ∈ ls -> noSpace (endId (lsource l)) = true /\
                       noSpace (endId (ltarget l)) = true) ->
  e ∈ scene ns ls ->
  hasClass ("node-" ++ a) e = true -> isTag circle e = true.
Proof.
  intros Hls. unfold scene.
  repeat (rewrite elem_of_cons || rewrite elem_of_app).
  rewrite !list_elem_of_In, !in_map_iff.
  assert (Hflow : "node-" ++ a ∉ ["flow-dots-layer"]).
  { rewrite not_elem_of_cons. norm_append.
    split; [discriminate | apply not_elem_of_nil]. }
  intros [-> | [-> | [-> | [[l [<- Hl]] | [-> | [[l [<- Hl]] | [-> |
            [[n [<- Hn]] | [-> | [n [<- Hn]]]]]]]]]]]; intros Hc;
    try reflexivity;
    unfold hasClass in Hc; apply bool_decide_eq_true in Hc; exfalso.
  - apply elem_of_nil in Hc. assumption.
  - apply elem_of_nil in Hc. assumption.
  - apply elem_of_nil in Hc. assumption.
  - apply list_elem_of_In in Hl. destruct (Hls l Hl) as [Hs Ht].
    unfold classList in Hc. rewrite class_lineOf in Hc.
    rewrite tokens_link in Hc
      by (rewrite endLower_lower, noSpace_lower; assumption).
    exact (node_class_not_link _ _ _ Hc).
  - exact (Hflow Hc).
  - apply elem_of_nil in Hc. assumption.
  - apply elem_of_nil in Hc. assumption.
  - apply elem_of_nil in Hc. assumption.
Qed.

(** On the scene of a payload whose addresses are free of white space, a
    focus on a name completes, leaves every element looking focused, and a
    reset afterwards gives what it gives on the scene as drawn. *)
Lemma focus_drawn_scene (data : GraphData) (a : string) (d : DOM) :
  drawn data = Some d ->
  (forall s, s ∈ endpoints data -> noSpace s = true) ->
  exists d',
    focusOn data a (resetAll d) = Some d' /\
    Forall2 (focused data a) d d' /\
    resetAll d' = resetAll d.
Proof.
  intros Hd Hsp.
  destruct (drawn_defined data) as [ls' [Hdr HF]].
  rewrite Hdr in Hd. injection Hd as <-.
  assert (Hls : forall l, l ∈ ls' -> noSpace (endId (lsource l)) = true /\
                                     noSpace (endId (ltarget l)) = true).
  { intros l Hl. rewrite Forall_forall in HF. destruct (HF l Hl).
    split; apply Hsp; assumption. }
  destruct (Forall2_choose (fun e e' => focusElem data a e = Some e')
              (focused data a) (scene (nodes data) ls')) as [d' [H1 H2]].
  { intros e He. apply (scene_focused data a (nodes data) ls'); [| | assumption].
    - intros n Hn. apply Hsp, nodes_ids_endpoints.
      apply list_elem_of_In, in_map, list_elem_of_In, Hn.
    - assumption. }
  exists d'. split; [apply focusOn_elementwise, H1 |]. split; [assumption |].
  assert (Hcirc : forall e, e ∈ scene (nodes data) ls' ->
            hasClass ("node-" ++ a) e = true -> isTag circle e = true).
  { intros e. apply scene_node_class, Hls. }
  clear H2. revert Hcirc H1. generalize (scene (nodes data) ls') as sc.
  intros sc Hcirc H1. rewrite !resetAll_map.
  induction H1 as [| e e' sc sc' He _ IH]; [reflexivity |].
  cbn [map]. f_equal.
  - apply (resetElem_after_focus data a); [assumption |]. apply Hcirc. left.
  - apply IH. intros x Hx. apply Hcirc. right. assumption.
Qed.



(** *** The effect, whatever its selectors select *)

Lemma strokeAll_map (data : GraphData) (sel : Element -> bool)
    (f : Element -> Element) (d d' : DOM) :
  strokeAll data sel (map f d) = Some d' <->
  Forall2 (fun e e' => strokeWith data sel (f e) = Some e') d d'.
Proof.
  revert d'. induction d as [| e d IH]; intros d'.
  - cbn [map strokeAll]. split.
    + intros [= <-]. constructor.
    + intros H. inversion H. reflexivity.
  - cbn [map strokeAll].
    destruct (strokeWith data sel (f e)) as [e1 |] eqn:He.
    + destruct (strokeAll data sel (map f d)) as [r1 |] eqn:Hr.
      * split.
        -- intros [= <-]. constructor; [assumption |]. apply IH. reflexivity.
        -- intros H. inversion H as [| ? e2 ? r2 He2 Hr2]; subst.
           rewrite He in He2. injection He2 as <-.
           apply IH in Hr2. injection Hr2 as <-. reflexivity.
      * split; [discriminate |].
        intros H. inversion H as [| ? e2 ? r2 He2 Hr2]; subst.
        apply IH in Hr2. discriminate.
    + split; [discriminate |].
      intros H. inversion H as [| ? e2 ? r2 He2 Hr2]; subst.
      rewrite He in He2. discriminate.
Qed.

Lemma focusWith_elementwise (data : GraphData) (selN selL : Element -> bool)
    (d d' : DOM) :
  focusWith data selN selL (resetAll d) = Some d' <->
  Forall2 (fun e e' => focusElemWith data selN selL e = Some e') d d'.
Proof.
  rewrite resetAll_map. unfold focusWith, attrAll. rewrite !map_map.
  apply strokeAll_map.
Qed.

End SceneFacts.


(** ** Claims about the highlight effect *)
Module HighlightClaims.
Import JS Graph Scene SceneFacts Examples.

Example scenario_drawn : drawn scenario = Some scenarioScene.
Proof. vm_compute. reflexivity. Qed.

(** The link group ([2]) is drawn with the stroke and the stroke opacity
    that the neutral state gives every line. *)
Example scenario_link_group :
  look <$> scenarioScene !! 2 = Some (None, Some "0.6", Some "#999", None).
Proof. vm_compute. reflexivity. Qed.

(** Focusing the lower-case address in the one-edge scenario: the line
    ([3]) is opaque and red, the circle of [0xAAA] ([7]) is dimmed, the
    circle of [0xBBB] ([8]) is opaque. *)
Example scenario_focus_lowercase :
  option_map (fun d => (look <$> d !! 3, look <$> d !! 7, look <$> d !! 8))
    (highlightEffect (Some scenario) (Some "0xbbb") scenarioScene) =
  Some (Some (None, Some "1", Some "#ff6666", None),
        Some (Some "0.2", None, None, Some "1.5"),
        Some (Some "1", None, None, Some "3")).
Proof. vm_compute. reflexivity. Qed.

(** A focus written with upper-case letters selects nothing: the line
    stays dimmed and so do both circles. *)
Example uppercase_focus_selects_nothing :
  option_map (fun d => (look <$> d !! 3, look <$> d !! 7, look <$> d !! 8))
    (highlightEffect (Some scenario) (Some "0xBBB") scenarioScene) =
  Some (Some (None, Some "0.1", Some "#999", None),
        Some (Some "0.2", None, None, Some "1.5"),
        Some (Some "0.2", None, None, Some "1.5")).
Proof. vm_compute. reflexivity. Qed.


(** The target [0xbbb,circle] focused, as a click on its row focuses it:
    the two selectors are lists whose second member is [circle].  The line
    ([3]) stays dimmed; the flow dot ([5]) and both node circles ([7], [8])
    are opaque with the wide stroke, and carry a stroke colour. *)
Example comma_focus :
  option_map (fun d => (look <$> d !! 3, look <$> d !! 5, look <$> d !! 7,
                        look <$> d !! 8))
    (highlightEffect (Some commaTarget) (Some "0xbbb,circle") commaScene) =
  Some (Some (None, Some "0.1", Some "#999", None),
        Some (Some "1", Some "1", Some "#ff6666", Some "3"),
        Some (Some "1", Some "1", Some "#ff9933", Some "3"),
        Some (Some "1", Some "1", Some "#ff9933", Some "3")).
Proof. vm_compute. reflexivity. Qed.







End HighlightClaims.

(** ** Claims about hover enrichment *)
Module HoverClaims.
Import JS Hover.

Lemma run_app (s : State) (es fs : list Event) :
  run s (es ++ fs)%list = run (run s es) fs.
Proof. unfold run. apply fold_left_app. Qed.

Lemma settle_id (s : State) (i : nat) (o : Outcome) :
  hoveredNodeId (settle s i o) = hoveredNodeId s.
Proof. unfold settle. destruct (inflight s !! i) as [[n k] |]; reflexivity. Qed.

(** Without a [mouseover], a state in which no node is hovered stays so. *)
Lemma unhovered_stable (es : list Event) (s : State) :
  Forall (fun e => forall n, e <> MouseOver n) es ->
  hoveredNodeId s = None ->
  hoveredNodeId (run s es) = None.
Proof.
  intros Hes. revert s. induction Hes as [| e es He _ IH]; intros s Hs.
  - assumption.
  - cbn [run fold_left]. apply IH.
    destruct e as [| | n | | i o]; cbn [step].
    + assumption.
    + assumption.
    + destruct (He n eq_refl).
    + reflexivity.
    + rewrite settle_id. assumption.
Qed.

(** After a mouseout, a late answer does fill the hover info again. *)
Example late_answer_repopulates_info :
  let s := run initial [MouseOver "0xa"; MouseOut;
                        Settle 0 (Fulfilled (Some "7"))] in
  hoveredNodeId s = None /\
  hoveredNodeInfo s =
    Some {| balance := Some (Some "7"); company := None; error := false |} /\
  hoverCard s = None.
Proof. vm_compute. repeat split. Qed.

(** C10: the card is rendered only when both the hovered id and the hover
    info are set; [mouseout] clears both; and from then on, as long as no
    node is hovered anew, no card is rendered, whatever lookups settle. *)
Theorem no_card_when_not_hovered (s : State) (es : list Event) :
  Forall (fun e => forall n, e <> MouseOver n) es ->
  (forall c, hoverCard s = Some c ->
     exists n i, hoveredNodeId s = Some n /\ hoveredNodeInfo s = Some i) /\
  hoveredNodeId (mouseout s) = None /\
  hoveredNodeInfo (mouseout s) = None /\
  hoverCard (run (mouseout s) es) = None.
Proof.
  intros Hes. split; [| split; [| split]].
  - intros c Hc. unfold hoverCard in Hc.
    destruct (hoveredNodeId s) as [n |], (hoveredNodeInfo s) as [i |];
      try discriminate.
    eauto.
  - reflexivity.
  - reflexivity.
  - unfold hoverCard.
    rewrite (unhovered_stable es (mouseout s) Hes eq_refl). reflexivity.
Qed.

Lemma no_card_when_not_hovered_witness :
  hoverCard (run (mouseout (run initial [MouseOver "0xa"]))
               [Settle 0 (Fulfilled (Some "7")); Settle 0 Rejected]) = None.
Proof.
  apply (no_card_when_not_hovered (run initial [MouseOver "0xa"])
           [Settle 0 (Fulfilled (Some "7")); Settle 0 Rejected]).
  repeat constructor; discriminate.
Defined.

(** C4, as stated, fails: the balance of [0xa] arrives while [0xb] is the
    hovered node, and is written into the hover info. *)
Lemma stale_result_is_applied : ~ Stated.stale_result_discarded.
Proof.
  intros H.
  specialize (H [MouseOver "0xa"; MouseOut; MouseOver "0xb"] 0 "0xa" Balance
                (Fulfilled (Some "7"))).
  cbv zeta in H.
  assert (H1 : inflight (run initial [MouseOver "0xa"; MouseOut; MouseOver "0xb"])
               !! 0 = Some ("0xa", Balance)) by reflexivity.
  assert (H2 : hoveredNodeId
                 (run initial [MouseOver "0xa"; MouseOut; MouseOver "0xb"])
               <> Some "0xa") by (vm_compute; discriminate).
  specialize (H H1 H2). vm_compute in H. discriminate.
Qed.

Example stale_result_is_shown :
  hoverCard (run initial [MouseOver "0xa"; MouseOut; MouseOver "0xb";
                          Settle 0 (Fulfilled (Some "7"))]) =
  Some {| shownAddress := "0xb"; body := Values (Some "7") None |}.
Proof. vm_compute. reflexivity. Qed.

Lemma lookup_at_length {A} (l r : list A) (a : A) :
  (l ++ a :: r)%list !! length l = Some a.
Proof. induction l as [| b l IH]; [reflexivity | exact IH]. Qed.


(** The card drawn from a hover info into which an answer was merged. *)
Lemma card_after_answer (m : string) (k : Lookup) (v : option string)
    (prev : option NodeHoverInfo) :
  NodeHoverCard m (Some (applyOutcome k (Fulfilled v) prev)) =
  {| shownAddress := m;
     body :=
       if error (spread prev) then Placeholders "500" "CCinc"
       else match k with
            | Balance => Values v (printed (company (spread prev)))
            | Company => Values (printed (balance (spread prev))) v
            end |}.
Proof.
  unfold NodeHoverCard, noKeys.
  destruct k; cbn [applyOutcome balance company error printed mjoin];
    destruct (spread prev) as [b c []]; cbn [balance company error];
    try destruct b; try destruct c; reflexivity.
Qed.

(** C4, amended: when a lookup settles, its handler merges the result into
    the hover info whatever node is hovered at that time, and leaves the
    hovered id alone.  If a node [m] is hovered then, the card of [m] is
    drawn from the merged info: it shows the answer in its field, or the
    two placeholders when the error flag is up.  If no node is hovered the
    answer is merged all the same and no card is drawn.  So the balance of
    a node left for another one shows on the card of that other node. *)
Theorem result_applied_whatever_is_hovered
    (s : State) (i : nat) (nodeId : string) (k : Lookup) :
  inflight s !! i = Some (nodeId, k) ->
  (forall o,
     hoveredNodeInfo (settle s i o) =
       Some (applyOutcome k o (hoveredNodeInfo s)) /\
     hoveredNodeId (settle s i o) = hoveredNodeId s) /\
  (forall m v, hoveredNodeId s = Some m -> truthy m = true ->
     hoverCard (settle s i (Fulfilled v)) =
     Some {| shownAddress := m;
             body :=
               if error (spread (hoveredNodeInfo s))
               then Placeholders "500" "CCinc"
               else match k with
                    | Balance =>
                        Values v (printed (company (spread (hoveredNodeInfo s))))
                    | Company =>
                        Values (printed (balance (spread (hoveredNodeInfo s)))) v
                    end |}) /\
  (forall o, hoveredNodeId s = None -> hoverCard (settle s i o) = None) /\
  (forall n m v, dragging s = false -> truthy m = true ->
     hoverCard
       (run s [MouseOver n; MouseOut; MouseOver m;
               Settle (length (inflight s)) (Fulfilled v)]) =
     Some {| shownAddress := m; body := Values v None |}).
Proof.
  intros Hi.
  assert (Hset : forall o,
            settle s i o =
            {| dragging := dragging s; hoveredNodeId := hoveredNodeId s;
               hoveredNodeInfo := Some (applyOutcome k o (hoveredNodeInfo s));
               inflight := delete i (inflight s) |})
    by (intros o; unfold settle; rewrite Hi; reflexivity).
  split; [| split; [| split]].
  - intros o. rewrite Hset. split; reflexivity.
  - intros m v Hm Ht. rewrite Hset. unfold hoverCard.
    cbn [hoveredNodeId hoveredNodeInfo]. rewrite Hm, Ht.
    rewrite card_after_answer. reflexivity.
  - intros o Hn. unfold hoverCard. rewrite settle_id, Hn. reflexivity.
  - intros n m v Hd Ht. cbn [run fold_left step].
    unfold mouseover at 2. rewrite Hd. unfold mouseout. cbn [dragging inflight].
    unfold mouseover. cbn [dragging inflight].
    unfold settle. cbn [inflight dragging hoveredNodeId hoveredNodeInfo].
    rewrite <- app_assoc. cbn [app]. rewrite lookup_at_length.
    unfold hoverCard. cbn [hoveredNodeId hoveredNodeInfo]. rewrite Ht.
    reflexivity.
Qed.

Lemma result_applied_whatever_is_hovered_witness :
  hoverCard
    (settle (run initial [MouseOver "0xa"; MouseOut; MouseOver "0xb"]) 0
       (Fulfilled (Some "7"))) =
  Some {| shownAddress := "0xb"; body := Values (Some "7") None |}.
Proof.
  apply (proj1 (proj2 (result_applied_whatever_is_hovered
                         (run initial [MouseOver "0xa"; MouseOut; MouseOver "0xb"])
                         0 "0xa" Balance eq_refl))
           "0xb" (Some "7")); reflexivity.
Defined.

(** With the error flag up, the card of the node hovered now shows the
    placeholders when a late answer for another node arrives. *)
Example stale_result_under_error_flag :
  hoverCard (run initial [MouseOver "0xa"; MouseOut; MouseOver "0xb";
                          Settle 3 Rejected;
                          Settle 0 (Fulfilled (Some "7"))]) =
  Some {| shownAddress := "0xb"; body := Placeholders "500" "CCinc" |}.
Proof. vm_compute. reflexivity. Qed.


Example one_failure_shows_placeholders :
  hoverCard (run initial [MouseOver "0xa"; Settle 0 Rejected;
                          Settle 0 (Fulfilled (Some "Acme"))]) =
  Some {| shownAddress := "0xa"; body := Placeholders "500" "CCinc" |}.
Proof. vm_compute. reflexivity. Qed.

(** A body that is [null] is not a failure the handlers catch: the
    component is unmounted, and no card is shown from then on. *)
Example null_body_unmounts :
  arrivals (Some initial)
    [Handled (MouseOver "0xa"); NullBody 0;
     Handled (Settle 0 (Fulfilled (Some "Acme"))); Handled (MouseOver "0xb")]
  = None.
Proof. reflexivity. Qed.






End HoverClaims.

(** ** Claims about teardown *)
Module LifecycleClaims.
Import Graph Lifecycle Examples.










(** *** Graphs replaced by a later payload *)









(** Drawing a second payload leaves the simulation of the first one
    running: its ticks are still delivered. *)
Example redraw_leaves_old_simulation_running :
  exists w,
    run initial [Payload scenario; Payload mixedTarget] = Some w /\
    simulationRef w = Some 1 /\
    exists w', step w (Tick 0 false) = Some w'.
Proof. eexists. split; [vm_compute; reflexivity |]. split; [reflexivity |]. eexists. reflexivity. Qed.

(** After a redraw the restart timer of a dot of the first graph is still
    delivered; the animation it starts ends without arming another one. *)
Example redraw_lets_old_timer_fire :
  exists w,
    run initial [Payload scenario; TravelEnd 0 0; FadeEnd 0 0;
                 Payload mixedTarget; Timeout 0 0; TravelEnd 0 0; FadeEnd 0 0]
    = Some w /\
    phaseAt w 0 0 = Some Idle.
Proof. eexists. split; [vm_compute; reflexivity | reflexivity]. Qed.

(** At the unmount the cleanup finds [svgRef.current] null and removes
    nothing: the flow dot keeps its parent, and its animation arms the
    restart timer again after every lap. *)
Example unmounted_dot_keeps_looping :
  run (unmount oneDotWaiting)
    [Timeout 0 0; TravelEnd 0 0; FadeEnd 0 0;
     Timeout 0 0; TravelEnd 0 0; FadeEnd 0 0] = Some (unmount oneDotWaiting).
Proof. vm_compute. reflexivity. Qed.




End LifecycleClaims.

(** ** Facts on strings *)
Module TextFacts.
Import JS Text Scene TokenFacts.

Lemma lower_ascii_idem (c : ascii) : lower_ascii (lower_ascii c) = lower_ascii c.
Proof. destruct c as [[] [] [] [] [] [] [] []]; vm_compute; reflexivity. Qed.

Lemma toLowerCase_idem (s : string) : toLowerCase (toLowerCase s) = toLowerCase s.
Proof.
  induction s as [| c s IH]; [reflexivity |].
  cbn [toLowerCase]. rewrite lower_ascii_idem, IH. reflexivity.
Qed.

Lemma nameChar_lower (c : ascii) : nameChar (lower_ascii c) = nameChar c.
Proof. destruct c as [[] [] [] [] [] [] [] []]; vm_compute; reflexivity. Qed.

Lemma cssName_lower (s : string) : cssName (toLowerCase s) = cssName s.
Proof.
  induction s as [| c s IH]; [reflexivity |].
  cbn [toLowerCase cssName]. rewrite nameChar_lower, IH. reflexivity.
Qed.

Lemma truthy_lower (s : string) : truthy (toLowerCase s) = truthy s.
Proof. destruct s; reflexivity. Qed.

Lemma nameChar_noSpace (c : ascii) : nameChar c = true -> isSpace c = false.
Proof. destruct c as [[] [] [] [] [] [] [] []]; vm_compute; congruence. Qed.

Lemma cssName_noSpace (s : string) : cssName s = true -> noSpace s = true.
Proof.
  induction s as [| c s IH]; [reflexivity |].
  cbn [cssName noSpace]. intros H. apply andb_true_iff in H. destruct H as [Hc Hs].
  rewrite (nameChar_noSpace c Hc), IH by assumption. reflexivity.
Qed.

Lemma length_append (s t : string) :
  String.length (s ++ t) = String.length s + String.length t.
Proof.
  induction s as [| c s IH]; [reflexivity |].
  rewrite append_cons. cbn [String.length]. rewrite IH. reflexivity.
Qed.

Lemma substring_0_length (n : nat) (s : string) :
  String.length (substring 0 n s) = Nat.min n (String.length s).
Proof.
  revert s. induction n as [| n IH]; intros s.
  - destruct s; reflexivity.
  - destruct s as [| c s]; [reflexivity |].
    cbn [substring String.length Nat.min]. rewrite IH. reflexivity.
Qed.

Lemma substring_skip_length (k n : nat) (s : string) :
  k <= String.length s ->
  String.length (substring k n s) = Nat.min n (String.length s - k).
Proof.
  revert s. induction k as [| k IH]; intros s Hk.
  - rewrite substring_0_length. f_equal. lia.
  - destruct s as [| c s]; [cbn [String.length] in Hk; lia |].
    cbn [String.length] in Hk.
    change (substring (S k) n (String c s)) with (substring k n s).
    rewrite IH by lia. cbn [String.length]. f_equal.
Qed.

Lemma substring_0_app (p r : string) :
  substring 0 (String.length p) (p ++ r) = p.
Proof.
  induction p as [| c p IH].
  - rewrite append_nil_l. destruct r; reflexivity.
  - rewrite append_cons. cbn [String.length substring]. rewrite IH. reflexivity.
Qed.

Lemma substring_0_all (q : string) : substring 0 (String.length q) q = q.
Proof.
  rewrite <- (append_nil_r q) at 2. apply substring_0_app.
Qed.

Lemma substring_skip_app (p q : string) (n : nat) :
  substring (String.length p) n (p ++ q) = substring 0 n q.
Proof.
  induction p as [| c p IH]; [reflexivity |].
  rewrite append_cons. cbn [String.length].
  change (substring (S (String.length p)) n (String c (p ++ q)))
    with (substring (String.length p) n (p ++ q)).
  exact IH.
Qed.

Lemma startsWith_iff (s p : string) :
  startsWith s p = true <-> exists t, s = p ++ t.
Proof.
  revert s. induction p as [| a p IH]; intros s.
  - destruct s; cbn [startsWith]; split; eauto.
  - destruct s as [| b s]; cbn [startsWith].
    + split; [discriminate |]. intros [t Ht]. discriminate.
    + rewrite andb_true_iff, bool_decide_eq_true, IH. split.
      * intros [-> [t ->]]. exists t. reflexivity.
      * intros [t Ht]. rewrite append_cons in Ht. injection Ht as -> ->. eauto.
Qed.

(** [includes] is the search for a substring. *)
Lemma includes_iff (s q : string) :
  includes s q = true <-> exists p t, s = p ++ q ++ t.
Proof.
  induction s as [| c s IH].
  - cbn [includes]. rewrite orb_false_r, startsWith_iff. split.
    + intros [t Ht]. exists "", t. assumption.
    + intros [p [t Ht]]. destruct p; [| discriminate].
      exists t. assumption.
  - cbn [includes]. rewrite orb_true_iff, startsWith_iff, IH. split.
    + intros [[t Ht] | [p [t Ht]]].
      * exists "", t. assumption.
      * exists (String c p), t. rewrite append_cons, Ht. reflexivity.
    + intros [p [t Ht]]. destruct p as [| b p].
      * left. exists t. assumption.
      * right. rewrite append_cons in Ht. injection Ht as -> ->. eauto.
Qed.

Lemma isWhite_lower (c : ascii) : isWhite (lower_ascii c) = isWhite c.
Proof.
  destruct c as [[] [] [] [] [] [] [] []]; vm_compute; reflexivity.
Qed.

Lemma trimStart_lower (s : string) :
  trimStart (toLowerCase s) = toLowerCase (trimStart s).
Proof.
  induction s as [| c s IH]; cbn [toLowerCase trimStart]; [reflexivity |].
  rewrite isWhite_lower. destruct (isWhite c); [assumption | reflexivity].
Qed.

Lemma trimEnd_lower (s : string) :
  trimEnd (toLowerCase s) = toLowerCase (trimEnd s).
Proof.
  induction s as [| c s IH]; cbn [toLowerCase trimEnd]; [reflexivity |].
  rewrite IH, isWhite_lower.
  destruct (trimEnd s); cbn [toLowerCase]; [| reflexivity].
  destruct (isWhite c); reflexivity.
Qed.

Lemma trim_lower (s : string) : trim (toLowerCase s) = toLowerCase (trim s).
Proof. unfold trim. rewrite trimStart_lower, trimEnd_lower. reflexivity. Qed.

End TextFacts.

(** ** The label of a node *)
Module LabelFacts.
Import JS Text Labels TokenFacts TextFacts.

Lemma shorten_truthy (i : string) : truthy (shorten i) = true.
Proof.
  unfold shorten. destruct (sliceTo 6 i) as [| c r]; reflexivity.
Qed.

(** X1: the label of a node is never empty.  It is the display name filed
    under the lower-cased id when that name is not empty; failing that, the
    name filed under the id as written when not empty.  Failing both it
    is the shortened address, unless a form of the id is a key under which
    every object inherits a property ([constructor], [toString], ...): the
    label is then that inherited value.  In particular, when no name is
    filed under either form of the id and neither is such a key, the label
    is the shortened address. *)
Theorem label_is_name_or_shortened
    (names : option (gmap string string)) (i : string) :
  truthyRead (labelText names i) = true /\
  (forall name, lookupName names (toLowerCase i) = Some (Filed name) ->
                truthy name = true -> labelText names i = Filed name) /\
  (forall name,
     orElse truthyRead (lookupName names (toLowerCase i)) None = None ->
     lookupName names i = Some (Filed name) ->
     truthy name = true -> labelText names i = Filed name) /\
  (orElse truthyRead (lookupName names (toLowerCase i)) None = None ->
   orElse truthyRead (lookupName names i) None = None ->
   labelText names i = Filed (shorten i)) /\
  (forall k, lookupName names (toLowerCase i) = Some (Inherited k) ->
             labelText names i = Inherited k) /\
  (forall k,
     orElse truthyRead (lookupName names (toLowerCase i)) None = None ->
     lookupName names i = Some (Inherited k) ->
     labelText names i = Inherited k) /\
  (forall m, names = Some m ->
     m !! toLowerCase i = None -> m !! i = None ->
     toLowerCase i ∉ inheritedKeys -> i ∉ inheritedKeys ->
     labelText names i = Filed (shorten i)).
Proof.
  split; [| split; [| split; [| split; [| split; [| split]]]]].
  - unfold labelText, orElse.
    destruct (lookupName names (toLowerCase i)) as [[a | a] |];
      cbn [truthyRead]; try reflexivity.
    + destruct (truthy a) eqn:Ha; [cbn [truthyRead]; rewrite Ha; assumption |].
      destruct (lookupName names i) as [[b | b] |]; cbn [truthyRead];
        try reflexivity; try apply shorten_truthy.
      destruct (truthy b) eqn:Hb; [assumption | apply shorten_truthy].
    + destruct (lookupName names i) as [[b | b] |]; cbn [truthyRead];
        try reflexivity; try apply shorten_truthy.
      destruct (truthy b) eqn:Hb; [assumption | apply shorten_truthy].
  - intros name Hl Ht. unfold labelText, orElse. rewrite Hl.
    cbn [truthyRead]. rewrite Ht. cbn [truthyRead]. rewrite Ht. reflexivity.
  - intros name Hno Hl Ht. unfold labelText. unfold orElse in *.
    rewrite Hl.
    destruct (lookupName names (toLowerCase i)) as [r |].
    + destruct (truthyRead r); [discriminate |].
      cbn [truthyRead]. rewrite Ht. reflexivity.
    + cbn [truthyRead]. rewrite Ht. reflexivity.
  - intros H1 H2. unfold labelText. unfold orElse in *.
    destruct (lookupName names (toLowerCase i)) as [r |].
    + destruct (truthyRead r); [discriminate |].
      destruct (lookupName names i) as [r2 |]; [| reflexivity].
      destruct (truthyRead r2); [discriminate | reflexivity].
    + destruct (lookupName names i) as [r2 |]; [| reflexivity].
      destruct (truthyRead r2); [discriminate | reflexivity].
  - intros k Hl. unfold labelText, orElse. rewrite Hl. reflexivity.
  - intros k Hno Hl. unfold labelText. unfold orElse in *. rewrite Hl.
    destruct (lookupName names (toLowerCase i)) as [r |]; [| reflexivity].
    destruct (truthyRead r); [discriminate | reflexivity].
  - intros m -> H1 H2 H3 H4. unfold labelText, orElse, lookupName.
    rewrite H1, H2, !decide_False by assumption. reflexivity.
Qed.

Lemma label_is_name_or_shortened_witness :
  labelText (Some {["0xaa" := "Router"; "0xAA" := "Old"]}) "0xAA"
    = Filed "Router" /\
  labelText (Some {["0xaa" := ""]}) "0xAA" = Filed "0xAA...0xAA" /\
  labelText (Some ∅) "constructor" = Inherited "constructor".
Proof.
  split; [| split].
  - apply (proj1 (proj2 (label_is_name_or_shortened
             (Some {["0xaa" := "Router"; "0xAA" := "Old"]}) "0xAA")));
      vm_compute; reflexivity.
  - apply (proj1 (proj2 (proj2 (proj2 (label_is_name_or_shortened
             (Some {["0xaa" := ""]}) "0xAA"))))); vm_compute; reflexivity.
  - apply (proj1 (proj2 (proj2 (proj2 (proj2 (label_is_name_or_shortened
             (Some ∅) "constructor")))))). vm_compute. reflexivity.
Defined.

(** X2: the shortened address keeps at most 6 leading and 4 trailing
    characters around three dots, so it has at most 13 characters; for an
    id of ten characters or more it is exactly its first six characters,
    the dots and its last four. *)
Theorem shorten_keeps_both_ends (i : string) :
  String.length (shorten i) =
    Nat.min 6 (String.length i) + 3 + Nat.min 4 (String.length i) /\
  (forall p m q, i = p ++ m ++ q -> String.length p = 6 ->
                 String.length q = 4 -> shorten i = p ++ "..." ++ q).
Proof.
  split.
  - unfold shorten, sliceTo, sliceLast. rewrite !length_append.
    rewrite substring_0_length, substring_skip_length by lia.
    change (String.length "...") with 3. lia.
  - intros p m q -> Hp Hq.
    unfold shorten, sliceTo, sliceLast. f_equal.
    + rewrite <- Hp. apply substring_0_app.
    + f_equal.
      replace (String.length (p ++ m ++ q) - 4)
        with (String.length (p ++ m)).
      * replace (p ++ m ++ q) with ((p ++ m) ++ q).
        -- rewrite substring_skip_app, <- Hq. apply substring_0_all.
        -- clear. induction p as [| c p IH]; [reflexivity |].
           rewrite !append_cons, IH. reflexivity.
      * rewrite !length_append. lia.
Qed.

Lemma shorten_keeps_both_ends_witness :
  shorten "0xE592427A0AEce92De3Edee1F18E0157C05861564" = "0xE592...1564".
Proof.
  apply (proj2 (shorten_keeps_both_ends
                  "0xE592427A0AEce92De3Edee1F18E0157C05861564")
           "0xE592" "427A0AEce92De3Edee1F18E0157C0586" "1564");
    reflexivity.
Defined.

End LabelFacts.

(** ** Dragging and hovering *)
Module DragFacts.
Import Drag.

Lemma moves_keep_position {R} (moves : list (R * R)) (s : State R) :
  x (node (fold_left dragged moves s)) = x (node s) /\
  y (node (fold_left dragged moves s)) = y (node s) /\
  alphaTarget (fold_left dragged moves s) = alphaTarget s /\
  ticking (fold_left dragged moves s) = ticking s.
Proof.
  revert s. induction moves as [| p moves IH]; intros s; [tauto |].
  cbn [fold_left]. destruct (IH (dragged s p)) as (-> & -> & -> & ->).
  repeat split.
Qed.

Lemma moves_pin_last {R} (moves : list (R * R)) (p : R * R) (s : State R) :
  fx (node (fold_left dragged (moves ++ [p]) s)) = Some (fst p) /\
  fy (node (fold_left dragged (moves ++ [p]) s)) = Some (snd p).
Proof. rewrite fold_left_app. cbn [fold_left]. split; reflexivity. Qed.

Lemma gesture_eq {R} (active : bool) (moves : list (R * R)) (s : State R) :
  gesture active moves s =
  {| draggingRef := false;
     alphaTarget := if active then alphaTarget s else Rest;
     ticking := if active then ticking s else true;
     node := {| x := x (node s); y := y (node s); fx := None; fy := None |} |}.
Proof.
  unfold gesture, dragended.
  destruct (moves_keep_position moves (dragstarted active s))
    as (-> & -> & -> & ->).
  cbn [dragstarted node x y alphaTarget ticking].
  destruct active; reflexivity.
Qed.

(** X3: while a node is dragged it is pinned at the last pointer position;
    when the gesture ends it is unpinned, the dragging flag is down and the
    simulator-owned position is as the handlers found it; a gesture that is
    the only one active leaves the alpha target at rest with the simulation
    restarted, and a second such gesture leaves the state the first one
    left. *)
Theorem drag_gesture_round_trip {R : Type}
    (active : bool) (moves moves' : list (R * R)) (p : R * R) (s : State R) :
  fx (node (fold_left dragged (moves ++ [p]) (dragstarted active s)))
    = Some (fst p) /\
  fy (node (fold_left dragged (moves ++ [p]) (dragstarted active s)))
    = Some (snd p) /\
  draggingRef (gesture active moves s) = false /\
  fx (node (gesture active moves s)) = None /\
  fy (node (gesture active moves s)) = None /\
  x (node (gesture active moves s)) = x (node s) /\
  y (node (gesture active moves s)) = y (node s) /\
  alphaTarget (gesture false moves s) = Rest /\
  ticking (gesture false moves s) = true /\
  gesture false moves' (gesture false moves s) = gesture false moves s.
Proof.
  destruct (moves_pin_last moves p (dragstarted active s)) as [Hfx Hfy].
  split; [exact Hfx |]. split; [exact Hfy |].
  rewrite !gesture_eq. repeat split.
Qed.

End DragFacts.

Module HoverFacts.
Import JS Hover HoverClaims.

(** X4: while a drag is in progress, hovering nodes issues no lookup and
    leaves the hovered id and the hover info as they are. *)
Theorem hover_suppressed_while_dragging (s : State) (es : list Event) :
  Forall (fun e => exists n, e = MouseOver n) es ->
  run (step s DragStart) es = step s DragStart.
Proof.
  intros Hes. induction Hes as [| e es [n ->] _ IH]; [reflexivity |].
  cbn [run fold_left] in *. exact IH.
Qed.

Lemma hover_suppressed_while_dragging_witness :
  inflight (run initial [DragStart; MouseOver "0xa"; MouseOver "0xb"]) = [] /\
  hoverCard (run initial [DragStart; MouseOver "0xa"; MouseOver "0xb"]) = None.
Proof.
  change (run initial [DragStart; MouseOver "0xa"; MouseOver "0xb"])
    with (run (step initial DragStart) [MouseOver "0xa"; MouseOver "0xb"]).
  rewrite (hover_suppressed_while_dragging initial
             [MouseOver "0xa"; MouseOver "0xb"]).
  - split; reflexivity.
  - repeat constructor; eexists; reflexivity.
Defined.



End HoverFacts.

(** ** The hook [useGraphVisualization] *)
Module HookFacts.
Import Graph Lifecycle Hook Examples.

(** X6: [drawGraph] of the hook draws once: a second call, with whatever
    payload, changes nothing until [cleanup] is called; after [cleanup] on
    a mounted [svg] the next call draws a new graph. *)
Theorem hook_draws_once (w : World) (d1 d2 : GraphData) :
  Hook.drawGraph (Hook.drawGraph w d1) d2 = Hook.drawGraph w d1 /\
  (svgRef w = true ->
   graphDrawnRef (Hook.drawGraph (Hook.cleanup w) d2) = true /\
   simulationRef (Hook.drawGraph (Hook.cleanup w) d2) = Some (length (gens w)) /\
   attached (Hook.drawGraph (Hook.cleanup w) d2) = Some (length (gens w))).
Proof.
  split.
  - unfold Hook.drawGraph.
    destruct (graphDrawnRef w) eqn:Hg; cbn [orb].
    + rewrite Hg. reflexivity.
    + destruct (svgRef w) eqn:Hs; cbn [negb].
      * reflexivity.
      * rewrite Hg, Hs. reflexivity.
  - intros Hs. unfold Hook.drawGraph, Hook.cleanup, Lifecycle.cleanup.
    cbn [graphDrawnRef svgRef gens orb]. rewrite Hs. cbn [negb].
    cbn [graphDrawnRef simulationRef attached].
    destruct (simulationRef w); rewrite ?length_alter; repeat split.
Qed.

Lemma hook_draws_once_witness :
  Hook.drawGraph (Hook.drawGraph initial scenario) mixedTarget =
    Hook.drawGraph initial scenario /\
  simulationRef
    (Hook.drawGraph (Hook.cleanup (Hook.drawGraph initial scenario)) mixedTarget)
  = Some 1.
Proof.
  split.
  - exact (proj1 (hook_draws_once initial scenario mixedTarget)).
  - apply (proj2 (hook_draws_once (Hook.drawGraph initial scenario)
                    scenario mixedTarget)).
    reflexivity.
Defined.

Lemma hookInv_step (w w' : World) (o : Op) :
  hookInv w -> Hook.step w o = Some w' -> hookInv w'.
Proof.
  intros Hinv Hstep. pose proof Hinv as (Hs & Hrun & Hatt & Hdrawn).
  destruct o as [data | | e]; cbn [Hook.step] in Hstep.
  - injection Hstep as <-. unfold Hook.drawGraph.
    destruct (graphDrawnRef w) eqn:Hg; cbn [orb].
    + exact Hinv.
    + rewrite Hs. cbn [negb]. specialize (Hdrawn eq_refl).
      unfold hookInv, onlyReferencedRuns.
      cbn [svgRef gens simulationRef attached graphDrawnRef].
      split; [reflexivity |]. split; [| split; [tauto | discriminate]].
      intros n gn Hn Hr.
      destruct (decide (n < length (gens w))) as [Hlt | Hge].
      * rewrite lookup_app_l in Hn by assumption.
        specialize (Hrun n gn Hn Hr). congruence.
      * apply lookup_lt_Some in Hn as Hlen.
        rewrite length_app in Hlen. cbn [length] in Hlen.
        f_equal. lia.
  - injection Hstep as <-.
    unfold hookInv, onlyReferencedRuns, Hook.cleanup, Lifecycle.cleanup.
    cbn [svgRef gens simulationRef attached graphDrawnRef]. rewrite Hs.
    split; [reflexivity |]. split; [| split; [discriminate | reflexivity]].
    intros n gn Hn Hr. exfalso.
    destruct (simulationRef w) as [k |] eqn:Hk.
    + destruct (decide (k = n)) as [-> | Hne].
      * rewrite list_lookup_alter_eq in Hn.
        destruct (gens w !! n); [| discriminate].
        injection Hn as <-. discriminate.
      * rewrite list_lookup_alter_ne in Hn by assumption.
        specialize (Hrun n gn Hn Hr). congruence.
    + specialize (Hrun n gn Hn Hr). congruence.
  - destruct (callback e) eqn:Hcb; [| discriminate].
    assert (Hset : forall f m,
               (forall gn, sim (f gn) = Running -> simulationRef w = Some m \/
                                                    sim gn = Running) ->
               hookInv (setGens w (alter f m (gens w)))).
    { intros f m Hf. unfold hookInv, onlyReferencedRuns.
      cbn [setGens svgRef gens simulationRef attached graphDrawnRef].
      split; [assumption |]. split; [| tauto].
      intros n gn Hn Hr.
      destruct (decide (m = n)) as [-> | Hne].
      - rewrite list_lookup_alter_eq in Hn.
        destruct (gens w !! n) as [g0 |] eqn:Hg0; [| discriminate].
        injection Hn as <-. destruct (Hf g0 Hr) as [H | H];
          [assumption | apply (Hrun n g0 Hg0 H)].
      - rewrite list_lookup_alter_ne in Hn by assumption.
        apply (Hrun n gn Hn Hr). }
    destruct e as [data | | m cooled | m k | m | m i | m i | m i];
      try discriminate; cbn [Lifecycle.step] in Hstep.
    + destruct (gens w !! m) as [gn |]; [| discriminate].
      destruct (sim gn); [| discriminate]. injection Hstep as <-.
      destruct cooled; [| exact Hinv].
      apply Hset. intros g0. cbn [setSim sim]. discriminate.
    + destruct (mounted w && bool_decide (attached w = Some m)) eqn:Hb;
        [| discriminate].
      apply andb_true_iff in Hb. destruct Hb as [_ Hb].
      apply bool_decide_eq_true in Hb.
      destruct k; injection Hstep as <-; try exact Hinv.
      apply Hset. intros g0 _. left. apply Hatt, Hb.
    + destruct (mounted w && bool_decide (zoomListener w = Some m));
        [| discriminate].
      injection Hstep as <-. exact Hinv.
    + destruct (phaseAt w m i) as [[] |]; try discriminate.
      injection Hstep as <-. apply Hset. intros g0. cbn [setDot sim]. tauto.
    + destruct (phaseAt w m i) as [[] |]; try discriminate.
      injection Hstep as <-. apply Hset. intros g0. cbn [setDot sim]. tauto.
    + destruct (phaseAt w m i) as [[] |]; try discriminate.
      injection Hstep as <-. apply Hset. intros g0. cbn [setDot sim]. tauto.
Qed.

Lemma hookInv_run (os : list Op) (w w' : World) :
  hookInv w -> Hook.run w os = Some w' -> hookInv w'.
Proof.
  revert w. induction os as [| o os IH]; intros w Hw Hrun; cbn [Hook.run] in Hrun.
  - injection Hrun as <-. assumption.
  - destruct (Hook.step w o) as [w1 |] eqn:Hstep; [| discriminate].
    apply (IH w1); [apply (hookInv_step w w1 o) |]; assumption.
Qed.

(** X7: in a component that draws through the hook, whatever it calls and
    whatever callbacks arrive, a simulation that still ticks is the one
    held in [simulationRef], the one the next [cleanup] stops: no
    simulation of an earlier graph keeps running. *)
Theorem hook_runs_one_simulation (os : list Op) (w : World) :
  Hook.run initial os = Some w ->
  onlyReferencedRuns w /\
  (forall n gn, gens (Hook.cleanup w) !! n = Some gn -> sim gn = Stopped).
Proof.
  intros Hrun.
  assert (Hinv : hookInv w).
  { apply (hookInv_run os initial w); [| assumption].
    unfold hookInv, onlyReferencedRuns.
    cbn [initial svgRef gens simulationRef attached graphDrawnRef].
    split; [reflexivity |]. split; [| split; [discriminate | reflexivity]].
    intros n gn Hn. rewrite lookup_nil in Hn. discriminate. }
  destruct Hinv as (Hs & Honly & _ & _). split; [assumption |].
  intros n gn Hn. unfold Hook.cleanup, Lifecycle.cleanup in Hn. cbn [gens] in Hn.
  destruct (sim gn) eqn:Hsim; [| reflexivity]. exfalso.
  destruct (simulationRef w) as [k |] eqn:Hk.
  - destruct (decide (k = n)) as [-> | Hne].
    + rewrite list_lookup_alter_eq in Hn.
      destruct (gens w !! n); [| discriminate].
      injection Hn as <-. discriminate.
    + rewrite list_lookup_alter_ne in Hn by assumption.
      specialize (Honly n gn Hn Hsim). congruence.
  - specialize (Honly n gn Hn Hsim). congruence.
Qed.

Lemma hook_runs_one_simulation_witness :
  exists w,
    Hook.run initial [Draw scenario; Deliver (Tick 0 false); Cleanup;
                      Draw mixedTarget; Deliver (Pointer 1 DragStart)] = Some w /\
    onlyReferencedRuns w.
Proof.
  eexists. split; [vm_compute; reflexivity |].
  match goal with
  | |- onlyReferencedRuns ?w0 =>
      apply (hook_runs_one_simulation
               [Draw scenario; Deliver (Tick 0 false); Cleanup;
                Draw mixedTarget; Deliver (Pointer 1 DragStart)] w0)
  end.
  vm_compute. reflexivity.
Defined.

End HookFacts.

(** ** More on the model builder and the scene *)
Module BuilderFacts.
Import JS Graph Scene Frame SetFacts GraphFacts SceneFacts Examples.

Lemma Set_add_length (s : list string) (x : string) :
  length s <= length (Set_add s x) <= S (length s).
Proof.
  unfold Set_add. destruct (decide (x ∈ s)); [lia |].
  rewrite length_app. cbn [length]. lia.
Qed.

Lemma addLink_length (s : list string) (l : Link) :
  length s <= length (addLink s l) <= 2 + length s.
Proof.
  unfold addLink.
  pose proof (Set_add_length s (endId (lsource l))) as H1.
  pose proof (Set_add_length (Set_add s (endId (lsource l)))
                (endId (ltarget l))) as H2.
  lia.
Qed.

Lemma addLink_not_nil (s : list string) (l : Link) : 1 <= length (addLink s l).
Proof.
  unfold addLink.
  pose proof (Set_add_length (Set_add s (endId (lsource l)))
                (endId (ltarget l))) as H2.
  assert (1 <= length (Set_add s (endId (lsource l)))); [| lia].
  unfold Set_add. destruct (decide (endId (lsource l) ∈ s)) as [Hin | Hout].
  - destruct s; [apply elem_of_nil in Hin; destruct Hin | cbn [length]; lia].
  - rewrite length_app. cbn [length]. lia.
Qed.

Lemma fold_addLink_length (ls : list Link) (s : list string) :
  length s <= length (fold_left addLink ls s) <= 2 * length ls + length s.
Proof.
  revert s. induction ls as [| l ls IH]; intros s; cbn [fold_left length].
  - lia.
  - pose proof (IH (addLink s l)) as H1.
    pose proof (addLink_length s l) as H2. lia.
Qed.

(** X8: the builder makes at most two nodes per link and at least one node
    as soon as there is a link; it makes no node exactly when it makes no
    link, that is when no edge of the payload names an interaction kind. *)
Theorem nodes_bounded_by_links (data : GraphData) :
  length (nodes data) <= 2 * length (links data) /\
  (links data <> [] -> 1 <= length (nodes data)) /\
  (nodes data = [] <-> links data = []) /\
  (links data = [] <->
   forall e, e ∈ default [] (edges data) -> hasKind e = false).
Proof.
  assert (Hlen : length (nodes data) = length (nodeSet (links data)))
    by (unfold nodes; apply length_map).
  assert (Hne : links data <> [] -> 1 <= length (nodes data)).
  { rewrite Hlen. unfold nodeSet. destruct (links data) as [| l ls]; [tauto |].
    intros _. cbn [fold_left].
    pose proof (fold_addLink_length ls (addLink [] l)) as H1.
    pose proof (addLink_not_nil [] l) as H2. lia. }
  split; [| split; [exact Hne | split]].
  - rewrite Hlen. unfold nodeSet.
    pose proof (fold_addLink_length (links data) []) as H. cbn [length] in H. lia.
  - split.
    + intros Hn. destruct (links data) as [| l ls] eqn:Hl; [reflexivity |].
      rewrite Hn in Hne. cbn [length] in Hne.
      assert (1 <= 0) by (apply Hne; discriminate). lia.
    + intros Hl. unfold nodes. rewrite Hl. reflexivity.
  - unfold links. induction (default [] (edges data)) as [| e es IH].
    + split; [| reflexivity]. intros _ e He. apply elem_of_nil in He. destruct He.
    + cbn [flat_map]. split.
      * intros H. apply app_eq_nil in H. destruct H as [He Hes].
        intros e0 He0. apply elem_of_cons in He0. destruct He0 as [-> | He0].
        -- unfold hasKind. unfold edgeLinks in He.
           destruct (entries e); [reflexivity | discriminate].
        -- apply IH; assumption.
      * intros H. assert (He : hasKind e = false) by (apply H; left).
        unfold hasKind in He. unfold edgeLinks at 1.
        destruct (entries e); [| discriminate]. cbn [map app].
        apply IH. intros e0 He0. apply H. right. assumption.
Qed.

Lemma nodes_bounded_by_links_witness :
  1 <= length (nodes scenario) /\ nodes untyped = [].
Proof.
  split.
  - apply (proj1 (proj2 (nodes_bounded_by_links scenario))). discriminate.
  - apply (proj1 (proj2 (proj2 (nodes_bounded_by_links untyped)))).
    reflexivity.
Defined.

Lemma find_node (ns : list Node) (s : string) :
  s ∈ map id ns ->
  exists n, List.find (fun n => bool_decide (id n = s)) ns = Some n /\
            n ∈ ns /\ id n = s.
Proof.
  intros Hs. destruct (find_by_id ns s Hs) as [n [Hf Hid]].
  exists n. split; [assumption |]. split; [| assumption].
  apply find_some in Hf. apply list_elem_of_In. tauto.
Qed.

Lemma resolve_links (ns : list Node) (ls : list Link) :
  (forall l, l ∈ ls ->
     (exists s, lsource l = ById s /\ s ∈ map id ns) /\
     (exists t, ltarget l = ById t /\ t ∈ map id ns)) ->
  exists ls',
    forceLink ns ls = Some ls' /\
    Forall2 (fun l l' =>
               type l' = type l /\ count l' = count l /\
               resolvedTo ns (lsource l) (lsource l') /\
               resolvedTo ns (ltarget l) (ltarget l')) ls ls'.
Proof.
  induction ls as [| l ls IH]; intros Hends; cbn [forceLink].
  - exists []. split; [reflexivity | constructor].
  - destruct (Hends l) as [[s [Hs Hsin]] [t [Ht Htin]]]; [left |].
    destruct (find_node ns s Hsin) as [ns' [Hfs [Hns Hids]]].
    destruct (find_node ns t Htin) as [nt' [Hft [Hnt Hidt]]].
    destruct IH as [ls' [Hls' HF]].
    { intros l0 Hl0. apply Hends. right. assumption. }
    unfold resolveLink, resolveEnd. rewrite Hs, Ht, Hfs, Hft, Hls'.
    cbn [option_map]. eexists. split; [reflexivity |].
    constructor; [| assumption]. cbn [type count lsource ltarget].
    split; [reflexivity |]. split; [reflexivity |].
    rewrite Hs, Ht. split; eexists; cbn [endId]; eauto.
Qed.

Lemma links_by_id (data : GraphData) (l : Link) :
  l ∈ links data ->
  (exists s, lsource l = ById s /\ s ∈ map id (nodes data)) /\
  (exists t, ltarget l = ById t /\ t ∈ map id (nodes data)).
Proof.
  intros Hl. destruct (links_ends data l Hl) as [Hs Ht].
  apply nodes_ids_endpoints in Hs. apply nodes_ids_endpoints in Ht.
  unfold links in Hl. rewrite list_elem_of_In, in_flat_map in Hl.
  destruct Hl as [e [_ Hl]]. unfold edgeLinks in Hl. apply in_map_iff in Hl.
  destruct Hl as [tc [<- _]]. cbn [lsource ltarget endId] in *.
  split; eexists; (split; [reflexivity | assumption]).
Qed.

(** X9: [drawGraph] always gets its links resolved: whatever the payload,
    [forceLink] finds for each end of each link a node the builder made,
    the one whose id is that end, letter for letter; kind and count are
    kept, and the scene is drawn. *)
Theorem every_link_end_resolves (data : GraphData) :
  exists ls',
    forceLink (nodes data) (links data) = Some ls' /\
    drawn data = Some (scene (nodes data) ls') /\
    Forall2 (fun l l' =>
               type l' = type l /\ count l' = count l /\
               resolvedTo (nodes data) (lsource l) (lsource l') /\
               resolvedTo (nodes data) (ltarget l) (ltarget l'))
      (links data) ls'.
Proof.
  destruct (resolve_links (nodes data) (links data)) as [ls' [Hf HF]].
  - intros l Hl. apply links_by_id, Hl.
  - exists ls'. split; [assumption |]. split; [| assumption].
    unfold drawn. rewrite Hf. reflexivity.
Qed.

End BuilderFacts.

(** ** More on the highlight effect *)
Module HighlightFacts.
Import JS Graph Scene Frame TokenFacts SceneFacts Examples.

Lemma not_lookKey (k : string) :
  k ∉ lookKeys ->
  k <> "opacity" /\ k <> "stroke-opacity" /\ k <> "stroke" /\
  k <> "stroke-width".
Proof.
  unfold lookKeys. rewrite !not_elem_of_cons. tauto.
Qed.

Lemma resetElem_frame (e : Element) (k : string) :
  k ∉ lookKeys -> attrs (resetElem e) !! k = attrs e !! k.
Proof.
  intros Hk. apply not_lookKey in Hk. destruct Hk as (H1 & H2 & H3 & H4).
  rewrite attrs_resetElem. cbv zeta.
  destruct (isTag circle e), (isTag line e);
    rewrite ?lookup_insert_ne by congruence; reflexivity.
Qed.

Lemma resetElem_plain (e : Element) :
  tag e <> circle -> tag e <> line -> resetElem e = e.
Proof.
  intros Hc Hl. apply element_ext.
  - apply tag_resetElem.
  - rewrite attrs_resetElem. unfold isTag.
    rewrite !bool_decide_eq_false_2 by assumption. reflexivity.
  - apply datum_resetElem.
Qed.

Lemma attrIf_frame (sel : Element -> bool) (k0 v : string) (e : Element)
    (k : string) :
  k <> k0 -> attrs (attrIf sel k0 v e) !! k = attrs e !! k.
Proof.
  intros Hk. rewrite attrs_attrIf. destruct (sel e); [| reflexivity].
  apply lookup_insert_ne. congruence.
Qed.

Lemma attrIf_not (sel : Element -> bool) (k v : string) (e : Element) :
  sel e = false -> attrIf sel k v e = e.
Proof. intros H. unfold attrIf. rewrite H. reflexivity. Qed.

Lemma strokeWith_inv (data : GraphData) (sel : Element -> bool)
    (e e' : Element) :
  strokeWith data sel e = Some e' ->
  tag e' = tag e /\ datum e' = datum e /\
  (forall k, k <> "stroke" -> k <> "stroke-opacity" ->
             attrs e' !! k = attrs e !! k) /\
  (sel e = false -> e' = e).
Proof.
  unfold strokeWith. destruct (sel e).
  - destruct (endsOf (datum e)) as [st |]; [| discriminate].
    intros [= <-]. unfold setAttr. cbn [tag datum attrs].
    split; [reflexivity |]. split; [reflexivity |]. split; [| discriminate].
    intros k H1 H2. rewrite !lookup_insert_ne by congruence. reflexivity.
  - intros [= <-]. tauto.
Qed.

Lemma kept_reset (e : Element) :
  kept (fun _ => false) (fun _ => false) e (resetElem e).
Proof.
  unfold kept. split; [apply tag_resetElem |].
  split; [apply datum_resetElem |]. split.
  - intros k Hk. apply resetElem_frame, Hk.
  - intros Hc Hl _ _. apply resetElem_plain; assumption.
Qed.

Lemma kept_focus (data : GraphData) (selN selL : Element -> bool)
    (e e' : Element) :
  focusElemWith data selN selL e = Some e' -> kept selN selL e e'.
Proof.
  unfold focusElemWith. intros H.
  apply strokeWith_inv in H. destruct H as (Ht & Hd & Hm & Hsame).
  rewrite !tag_attrIf, tag_resetElem in Ht.
  rewrite !datum_attrIf, datum_resetElem in Hd.
  unfold kept. split; [assumption |]. split; [assumption |]. split.
  - intros k Hk. apply not_lookKey in Hk. destruct Hk as (H1 & H2 & H3 & H4).
    rewrite Hm by assumption.
    rewrite !attrIf_frame by assumption. apply resetElem_frame.
    unfold lookKeys. rewrite !not_elem_of_cons.
    repeat (split; [assumption |]). apply not_elem_of_nil.
  - intros Hc Hl HN HL.
    assert (Hdim : attrIf (isTag line) "stroke-opacity" "0.1"
                     (attrIf (isTag circle) "opacity" "0.2" (resetElem e)) = e).
    { rewrite (resetElem_plain e Hc Hl).
      rewrite (attrIf_not (isTag circle))
        by (unfold isTag; apply bool_decide_eq_false_2; assumption).
      apply attrIf_not. unfold isTag. apply bool_decide_eq_false_2; assumption. }
    rewrite Hdim in Hsame.
    rewrite (attrIf_not selN "opacity" "1" e HN) in Hsame.
    rewrite (attrIf_not selN "stroke-width" "3" e HN) in Hsame.
    apply Hsame, HL.
Qed.

(** X10: a completed run of the highlight effect, whatever elements the
    two selectors made with the focused address select, neither adds nor
    removes nor reorders elements, and on each element it keeps the tag,
    the datum and every attribute other than opacity, stroke opacity,
    stroke and stroke width (so class, fill and radius stay); an element
    that is neither a circle nor a line and that neither selector selects
    is left exactly as it was.  The same holds of a run with no focus,
    which selects nothing. *)
Theorem highlight_changes_only_the_look
    (data : GraphData) (selN selL : Element -> bool) (d d' : DOM) :
  focusWith data selN selL (resetAll d) = Some d' ->
  Forall2 (kept selN selL) d d' /\
  Forall2 (kept (fun _ => false) (fun _ => false)) d (resetAll d).
Proof.
  intros H. split.
  - apply focusWith_elementwise in H.
    induction H as [| e e' d d' He _ IH]; constructor; [| assumption].
    apply (kept_focus data), He.
  - rewrite resetAll_map. clear.
    induction d as [| e d IH]; cbn [map]; constructor;
      [apply kept_reset | assumption].
Qed.

Lemma highlight_changes_only_the_look_witness :
  exists d',
    highlightEffect (Some commaTarget) (Some "0xbbb,circle") commaScene
      = Some d' /\
    Forall2 (kept (nodeSelector "0xbbb" ["circle"])
                  (linkSelector "0xbbb" ["circle"])) commaScene d'.
Proof.
  destruct (highlightEffect (Some commaTarget) (Some "0xbbb,circle") commaScene)
    as [d' |] eqn:H.
  - exists d'. split; [reflexivity |].
    apply (proj1 (highlight_changes_only_the_look commaTarget
                    (nodeSelector "0xbbb" ["circle"])
                    (linkSelector "0xbbb" ["circle"]) commaScene d' H)).
  - vm_compute in H. discriminate.
Defined.

(** A run on a drawn scene, with no focus or with a name focused:
    it completes, and a reset afterwards gives what it gives on the scene
    as drawn. *)
Lemma run_drawn_scene (data : GraphData) (h : option string) (d : DOM) :
  drawn data = Some d ->
  (forall s, s ∈ endpoints data -> noSpace s = true) ->
  (forall a, h = Some a -> cssName a = true) ->
  exists d1,
    highlightEffect (Some data) h d = Some d1 /\ resetAll d1 = resetAll d.
Proof.
  intros Hd Hsp Hcss. unfold highlightEffect.
  destruct h as [a |]; [| exists (resetAll d); split;
                           [reflexivity | apply resetAll_idem]].
  rewrite (Hcss a eq_refl).
  destruct (truthy a); [| exists (resetAll d); split;
                           [reflexivity | apply resetAll_idem]].
  destruct (focus_drawn_scene data a d Hd Hsp) as (d1 & Hf & _ & Hr).
  exists d1. split; assumption.
Qed.

(** X11: on the scene of a payload whose addresses are free of white
    space, with focused addresses made of letters, digits, [-] and [_],
    the effect completes and keeps no memory of earlier runs: after a run,
    the next run (clearing the focus, or focusing another such address)
    gives exactly the scene it gives on the freshly drawn one.  In
    particular clearing the focus also puts the stroke width of the
    focused circle back. *)
Theorem highlight_depends_on_last_focus_only
    (data : GraphData) (h1 h2 : option string) (d : DOM) :
  drawn data = Some d ->
  (forall s, s ∈ endpoints data -> noSpace s = true) ->
  (forall a, h1 = Some a -> cssName a = true) ->
  (forall a, h2 = Some a -> cssName a = true) ->
  exists d1 d2,
    highlightEffect (Some data) h1 d = Some d1 /\
    highlightEffect (Some data) h2 d1 = Some d2 /\
    highlightEffect (Some data) h2 d = Some d2.
Proof.
  intros Hd Hsp H1 H2.
  destruct (run_drawn_scene data h1 d Hd Hsp H1) as (d1 & Hr1 & Heq).
  destruct (run_drawn_scene data h2 d Hd Hsp H2) as (d2 & Hr2 & _).
  exists d1, d2. split; [assumption |]. split; [| assumption].
  rewrite (highlightEffect_reset data h2 d1 d Heq). assumption.
Qed.

Lemma highlight_depends_on_last_focus_only_witness :
  exists d1 d2,
    highlightEffect (Some scenario) (Some "0xbbb") scenarioScene = Some d1 /\
    highlightEffect (Some scenario) None d1 = Some d2 /\
    highlightEffect (Some scenario) None scenarioScene = Some d2.
Proof.
  apply (highlight_depends_on_last_focus_only scenario (Some "0xbbb") None
           scenarioScene).
  - vm_compute. reflexivity.
  - intros s Hs. apply list_elem_of_In in Hs. simpl in Hs.
    destruct Hs as [<- | [<- | []]]; reflexivity.
  - intros a [= <-]. reflexivity.
  - intros a Ha. discriminate.
Defined.

End HighlightFacts.

(** ** The interactions table and the graph *)
Module TableFacts.
Import JS Graph Scene Text Table SetFacts GraphFacts TokenFacts SceneFacts
  TextFacts Examples.

Ltac lookups :=
  rewrite ?lookup_insert; repeat case_decide; try reflexivity; try congruence;
  try discriminate.

Lemma addKeys_all (es : list Edge) (acc : list string) :
  (forall e, e ∈ es -> types e <> None) ->
  addKeys es acc =
  Some (fold_left Set_add (flat_map (fun e => map fst (entries e)) es) acc).
Proof.
  revert acc. induction es as [| e es IH]; intros acc Hall; cbn [addKeys flat_map].
  - reflexivity.
  - unfold entries at 1. destruct (types e) as [ts |] eqn:Ht.
    + cbn [default]. rewrite fold_left_app. apply IH.
      intros e0 He0. apply Hall. right. assumption.
    + destruct (Hall e); [left | assumption].
Qed.

Lemma addKeys_none (es : list Edge) (acc : list string) :
  addKeys es acc = None <-> exists e, e ∈ es /\ types e = None.
Proof.
  revert acc. induction es as [| e es IH]; intros acc; cbn [addKeys].
  - split; [discriminate |]. intros [e [He _]]. apply elem_of_nil in He.
    destruct He.
  - destruct (types e) as [ts |] eqn:Ht.
    + rewrite IH. split.
      * intros [e0 [He0 H0]]. exists e0. split; [right |]; assumption.
      * intros [e0 [He0 H0]]. apply elem_of_cons in He0.
        destruct He0 as [-> | He0]; [congruence |]. eauto.
    + split; [| reflexivity]. intros _. exists e. split; [left | assumption].
Qed.

Lemma link_kinds (es : list Edge) :
  map type (flat_map edgeLinks es) =
  flat_map (fun e => map fst (entries e)) es.
Proof.
  induction es as [| e es IH]; cbn [flat_map]; [reflexivity |].
  rewrite map_app, IH. f_equal. unfold edgeLinks. rewrite map_map.
  reflexivity.
Qed.

(** X12: the call-type columns of the table are the interaction kinds of
    the links the graph draws, each once, in order of first appearance.
    The column list cannot be computed (reading the keys raises) exactly when
    some edge of the payload comes without [types], a payload the graph
    builder accepts. *)
Theorem call_types_are_link_kinds (data : GraphData) :
  (callTypes (Some data) = None <->
   exists e, e ∈ default [] (edges data) /\ types e = None) /\
  (forall ks, callTypes (Some data) = Some ks ->
     ks = first_seen (map type (links data)) /\ NoDup ks).
Proof.
  unfold callTypes, links. destruct (edges data) as [es |]; cbn [default].
  - split; [apply addKeys_none |]. intros ks Hks.
    assert (Hall : forall e, e ∈ es -> types e <> None).
    { intros e He Hn.
      assert (Hno : addKeys es [] = None) by (apply addKeys_none; eauto).
      congruence. }
    rewrite addKeys_all in Hks by assumption. injection Hks as <-.
    rewrite fold_Set_add_nil, link_kinds.
    split; [reflexivity | apply first_seen_NoDup].
  - split.
    + split; [discriminate |]. intros [e [He _]]. apply elem_of_nil in He.
      destruct He.
    + intros ks [= <-]. split; [reflexivity | constructor].
Qed.

Lemma call_types_are_link_kinds_witness :
  callTypes (Some scenario) = Some ["call"] /\
  ["call"] = first_seen (map type (links scenario)) /\ NoDup ["call"].
Proof.
  split; [reflexivity |].
  apply (proj2 (call_types_are_link_kinds scenario)). reflexivity.
Defined.

(** The tint of a row under a focus in lower case: the row of an edge
    with an end that is the focus up to letter case. *)
Lemma tint_iff_touches (a : string) (e : Edge) (l : Link) :
  truthy a = true ->
  toLowerCase a = a ->
  endId (lsource l) = source e ->
  endId (ltarget l) = target e ->
  rowBackground (Some a) e = "#e8f4fd" <-> touches a l.
Proof.
  intros Ht Hlow Hs Hd. unfold rowBackground, touches.
  rewrite !endLower_lower, Hs, Hd, Ht, Hlow. cbn [andb].
  destruct (decide (toLowerCase (source e) = a)) as [H1 | H1].
  - rewrite (bool_decide_eq_true_2 _ H1). cbn [orb]. tauto.
  - rewrite (bool_decide_eq_false_2 _ H1). cbn [orb].
    destruct (decide (toLowerCase (target e) = a)) as [H2 | H2].
    + rewrite (bool_decide_eq_true_2 _ H2). tauto.
    + rewrite (bool_decide_eq_false_2 _ H2). split; [discriminate | tauto].
Qed.

(** X13: a click on a row that is not the focused one focuses the
    lower-cased target of the row.  On the scene of a payload whose
    addresses are free of white space, and for a target that is not empty
    and made of letters, digits, [-] and [_], the effect run with that
    focus completes, and the table tints exactly the rows of the edges
    whose lines the effect leaves opaque: for every line of the scene and
    the row of the edge its link comes from, the row is tinted if and
    only if the line has stroke opacity 1. *)
Theorem clicked_row_tints_the_highlighted_edges
    (data : GraphData) (h : option string) (r : Edge) (d : DOM) :
  drawn data = Some d ->
  (forall s, s ∈ endpoints data -> noSpace s = true) ->
  truthy (target r) = true ->
  cssName (target r) = true ->
  h <> Some (toLowerCase (target r)) ->
  rowClick h r = Some (toLowerCase (target r)) /\
  exists d',
    highlightEffect (Some data) (rowClick h r) d = Some d' /\
    Forall2 (fun e0 e0' =>
               forall l e, tag e0 = line -> datum e0 = LinkDatum l ->
                 endId (lsource l) = source e ->
                 endId (ltarget l) = target e ->
                 (rowBackground (rowClick h r) e = "#e8f4fd" <->
                  attrs e0' !! "stroke-opacity" = Some "1")) d d'.
Proof.
  intros Hd Hsp Ht Hcss Hh.
  assert (Hc : rowClick h r = Some (toLowerCase (target r))).
  { unfold rowClick. destruct (decide _); [contradiction | reflexivity]. }
  split; [assumption |]. rewrite Hc.
  destruct (focus_drawn_scene data (toLowerCase (target r)) d Hd Hsp)
    as (d' & Hf & Hfoc & _).
  exists d'. split.
  - unfold highlightEffect. rewrite truthy_lower, Ht, cssName_lower, Hcss.
    assumption.
  - clear Hf Hd. induction Hfoc as [| e0 e0' d d' H0 _ IH]; [constructor |].
    constructor; [| assumption].
    intros l e Htag Hdat Hs Hdst.
    destruct H0 as (_ & _ & _ & Hline).
    destruct (Hline l Htag Hdat) as [Hop _]. rewrite Hop.
    rewrite (tint_iff_touches (toLowerCase (target r)) e l
               (eq_trans (truthy_lower _) Ht) (toLowerCase_idem _) Hs Hdst).
    destruct (decide (touches (toLowerCase (target r)) l)) as [Hy | Hno].
    + tauto.
    + split; [contradiction | discriminate].
Qed.

Lemma clicked_row_tints_the_highlighted_edges_witness :
  exists d',
    highlightEffect (Some scenario)
      (rowClick None (mkEdge "0xAAA" "0xBBB" [("call", 3%Z)])) scenarioScene
    = Some d' /\
    Forall2 (fun e0 e0' =>
               forall l e, tag e0 = line -> datum e0 = LinkDatum l ->
                 endId (lsource l) = source e ->
                 endId (ltarget l) = target e ->
                 (rowBackground
                    (rowClick None (mkEdge "0xAAA" "0xBBB" [("call", 3%Z)])) e
                  = "#e8f4fd" <->
                  attrs e0' !! "stroke-opacity" = Some "1")) scenarioScene d'.
Proof.
  apply (clicked_row_tints_the_highlighted_edges scenario None
           (mkEdge "0xAAA" "0xBBB" [("call", 3%Z)]) scenarioScene).
  - vm_compute. reflexivity.
  - intros s Hs. apply list_elem_of_In in Hs. simpl in Hs.
    destruct Hs as [<- | [<- | []]]; reflexivity.
  - reflexivity.
  - reflexivity.
  - discriminate.
Defined.

Lemma focusAttrs_node data k dt (m : gmap string string) :
  focusAttrs data true false true k dt m !! "opacity" = Some "1" /\
  focusAttrs data true false true k dt m !! "stroke-width" = Some "3".
Proof. unfold focusAttrs. destruct k, dt; cbn [andb endsOf]; split; lookups. Qed.

(** X14: a click on a row makes the graph show the target of that row: on
    the scene of a payload whose addresses are free of white space, for a
    row whose edge has a kind and whose target is made of letters, digits,
    [-] and [_], the effect run with the clicked value completes, and the
    circle of the node the builder made for the target is opaque with the
    wide stroke; a second click on the same row clears the focus. *)
Theorem row_click_shows_target
    (data : GraphData) (h : option string) (e : Edge) (d : DOM) :
  drawn data = Some d ->
  (forall s, s ∈ endpoints data -> noSpace s = true) ->
  e ∈ default [] (edges data) ->
  hasKind e = true ->
  truthy (target e) = true ->
  cssName (target e) = true ->
  h <> Some (toLowerCase (target e)) ->
  exists d' i n c',
    highlightEffect (Some data) (rowClick h e) d = Some d' /\
    n ∈ nodes data /\ id n = target e /\
    d !! i = Some (circleOf n) /\ d' !! i = Some c' /\
    attrs c' !! "opacity" = Some "1" /\
    attrs c' !! "stroke-width" = Some "3" /\
    rowClick (rowClick h e) e = None.
Proof.
  intros Hd Hsp He Hk Ht Hcss Hh.
  destruct (drawn_defined data) as [ls' [Hdr HF]].
  rewrite Hdr in Hd. injection Hd as <-.
  assert (Hc : rowClick h e = Some (toLowerCase (target e))).
  { unfold rowClick. destruct (decide _); [contradiction | reflexivity]. }
  rewrite Hc. unfold highlightEffect. rewrite truthy_lower, Ht, cssName_lower, Hcss.
  destruct (Forall2_choose
              (fun x x' => focusElem data (toLowerCase (target e)) x = Some x')
              (focused data (toLowerCase (target e)))
              (scene (nodes data) ls')) as [d' [H1 _]].
  { intros x Hx.
    apply (scene_focused data _ (nodes data) ls'); [| | assumption].
    - intros n Hn. apply Hsp, nodes_ids_endpoints.
      apply list_elem_of_In, in_map, list_elem_of_In, Hn.
    - intros l Hl. rewrite Forall_forall in HF. destruct (HF l Hl).
      split; apply Hsp; assumption. }
  assert (Hend : target e ∈ endpoints data).
  { apply endpoints_elem. exists e. tauto. }
  assert (Hn : exists n, n ∈ nodes data /\ id n = target e).
  { apply nodes_ids_endpoints in Hend.
    apply list_elem_of_In, in_map_iff in Hend.
    destruct Hend as [n [Hid Hn]]. exists n. rewrite list_elem_of_In. tauto. }
  destruct Hn as [n [Hn Hid]].
  assert (Hin : circleOf n ∈ scene (nodes data) ls').
  { unfold scene. repeat (rewrite elem_of_cons || rewrite elem_of_app).
    do 7 right. left. apply list_elem_of_In, in_map, list_elem_of_In, Hn. }
  apply list_elem_of_lookup in Hin. destruct Hin as [i Hi].
  destruct (Forall2_lookup_l _ _ _ _ _ H1 Hi) as [c' [Hi' Hc']].
  exists d', i, n, c'.
  split; [apply focusOn_elementwise, H1 |].
  split; [assumption |]. split; [assumption |]. split; [assumption |].
  split; [assumption |].
  destruct (focusElem_inv _ _ _ _ Hc') as (_ & _ & Hm).
  rewrite hasClass_circleOf in Hm by (apply Hsp; rewrite <- Hid in Hend; exact Hend).
  rewrite Hid, bool_decide_eq_true_2 in Hm by reflexivity.
  change (isTag circle (circleOf n)) with true in Hm.
  change (isTag line (circleOf n)) with false in Hm.
  rewrite Hm.
  split; [apply focusAttrs_node |]. split; [apply focusAttrs_node |].
  unfold rowClick. destruct (decide _); [reflexivity | contradiction].
Qed.

Lemma row_click_shows_target_witness :
  exists d' i n c',
    highlightEffect (Some scenario)
      (rowClick None (mkEdge "0xAAA" "0xBBB" [("call", 3%Z)])) scenarioScene
    = Some d' /\
    n ∈ nodes scenario /\ id n = "0xBBB" /\
    scenarioScene !! i = Some (circleOf n) /\ d' !! i = Some c' /\
    attrs c' !! "opacity" = Some "1" /\
    attrs c' !! "stroke-width" = Some "3" /\
    rowClick (rowClick None (mkEdge "0xAAA" "0xBBB" [("call", 3%Z)]))
      (mkEdge "0xAAA" "0xBBB" [("call", 3%Z)]) = None.
Proof.
  apply (row_click_shows_target scenario None
           (mkEdge "0xAAA" "0xBBB" [("call", 3%Z)]) scenarioScene).
  - vm_compute. reflexivity.
  - intros s Hs. apply list_elem_of_In in Hs. simpl in Hs.
    destruct Hs as [<- | [<- | []]]; reflexivity.
  - left.
  - reflexivity.
  - reflexivity.
  - reflexivity.
  - discriminate.
Defined.

Lemma filter_sublist {A} (f : A -> bool) (l : list A) :
  sublist (List.filter f l) l.
Proof.
  induction l as [| a l IH]; cbn [List.filter]; [constructor |].
  destruct (f a); [apply sublist_skip | apply sublist_cons]; assumption.
Qed.

Lemma matchesQuery_iff (q : string) (r : EnhancedEdge) :
  matchesQuery q r = true <->
  exists s p t, (s = source (edge r) \/ s = target (edge r)) /\
                toLowerCase s = p ++ q ++ t.
Proof.
  unfold matchesQuery. rewrite orb_true_iff, !includes_iff. split.
  - intros [[p [t H]] | [p [t H]]]; eauto 8.
  - intros [s [p [t [[-> | ->] H]]]]; eauto.
Qed.

(** X15: the rows the table shows are rows of its input, in the same
    order; a row is shown exactly when it passes the direct-only switch (if
    set) and, for a search text that is not blank, when the lower-cased
    search text without its surrounding white space occurs in the
    lower-cased source or target of the row. *)
Theorem filter_shows_matching_rows
    (showDirectOnly : bool) (ca searchQuery : string)
    (rows : list EnhancedEdge) :
  sublist (filterEdges showDirectOnly ca searchQuery rows) rows /\
  forall r,
    r ∈ filterEdges showDirectOnly ca searchQuery rows <->
    r ∈ rows /\
    (showDirectOnly = true ->
     interactionType r = Direct \/ toLowerCase (source (edge r)) = ca) /\
    (trim searchQuery <> "" ->
     exists s p t,
       (s = source (edge r) \/ s = target (edge r)) /\
       toLowerCase s = p ++ toLowerCase (trim searchQuery) ++ t).
Proof.
  unfold filterEdges. rewrite trim_lower.
  assert (Hd : forall r, isDirectRow ca r = true <->
            interactionType r = Direct \/ toLowerCase (source (edge r)) = ca).
  { intros r. unfold isDirectRow.
    rewrite orb_true_iff, !bool_decide_eq_true. tauto. }
  assert (Ht : truthy (trim searchQuery) = true <-> trim searchQuery <> "").
  { destruct (trim searchQuery); cbn [truthy]; split; congruence. }
  split.
  - destruct showDirectOnly, (truthy (trim searchQuery));
      repeat (etransitivity; [apply filter_sublist |]); reflexivity.
  - intros r.
    destruct showDirectOnly; destruct (truthy (trim searchQuery)) eqn:Hq;
      rewrite ?list_elem_of_In, ?filter_In, <- ?list_elem_of_In,
        ?matchesQuery_iff, ?Hd.
    + intuition.
    + assert (trim searchQuery = "") by (destruct (trim searchQuery); [reflexivity | discriminate]).
      intuition congruence.
    + intuition congruence.
    + assert (trim searchQuery = "") by (destruct (trim searchQuery); [reflexivity | discriminate]).
      intuition congruence.
Qed.

Lemma filter_shows_matching_rows_witness :
  enhance None "0xaaa" (mkEdge "0xAAA" "0xBBB" []) ∈
  filterEdges false "0xaaa" " BB"
    [enhance None "0xaaa" (mkEdge "0xAAA" "0xBBB" [])].
Proof.
  apply (proj2 (filter_shows_matching_rows false "0xaaa" " BB"
                  [enhance None "0xaaa" (mkEdge "0xAAA" "0xBBB" [])])).
  split; [left |]. split; [discriminate |].
  intros _. exists "0xBBB", "0x", "b". split; [right |]; reflexivity.
Defined.

(** X16: the search of the table ignores letter case and surrounding
    white space: two search texts that agree once lower-cased and trimmed
    show the same rows. *)
Theorem search_ignores_case_and_blanks
    (showDirectOnly : bool) (ca q1 q2 : string) (rows : list EnhancedEdge) :
  trim (toLowerCase q1) = trim (toLowerCase q2) ->
  filterEdges showDirectOnly ca q1 rows = filterEdges showDirectOnly ca q2 rows.
Proof.
  intros H. unfold filterEdges. rewrite <- H.
  assert (Ht : truthy (trim q1) = truthy (trim q2)).
  { rewrite <- (truthy_lower (trim q1)), <- (truthy_lower (trim q2)).
    rewrite <- !trim_lower, H. reflexivity. }
  rewrite Ht. reflexivity.
Qed.

Lemma search_ignores_case_and_blanks_witness :
  filterEdges false "0xaaa" "  0xBB " [enhance None "0xaaa" (mkEdge "0xAAA" "0xBBB" [])] =
  filterEdges false "0xaaa" "0xbb" [enhance None "0xaaa" (mkEdge "0xAAA" "0xBBB" [])].
Proof.
  apply (search_ignores_case_and_blanks false "0xaaa" "  0xBB " "0xbb").
  reflexivity.
Defined.



End TableFacts.

(** ** Validation *)
Module ValidationFacts.
Import JS Text Scene Validation TokenFacts TextFacts.

Lemma validateBlockNumber_bounds (s : string) (n : Z) :
  validateBlockNumber s = Valid n -> (0 <= n <= MAX_SAFE_INTEGER)%Z.
Proof.
  unfold validateBlockNumber. destruct (negb (truthy s)); [discriminate |].
  destruct (parseInt (trim s)) as [p |]; [| discriminate].
  destruct (Z.ltb_spec p 0); [discriminate |].
  destruct (p >? MAX_SAFE_INTEGER)%Z eqn:Hgt; [discriminate |].
  intros [= <-]. rewrite Z.gtb_ltb in Hgt. apply Z.ltb_ge in Hgt. lia.
Qed.

(** X18: a block range is accepted exactly when both texts are accepted
    as block numbers and the first is below the second by at most a
    million; the accepted numbers then lie between 0 and
    [MAX_SAFE_INTEGER]. *)
Theorem block_range_accepted_iff (fromBlock toBlock : string) (a b : Z) :
  (validateBlockRange fromBlock toBlock = Valid (a, b) <->
   validateBlockNumber fromBlock = Valid a /\
   validateBlockNumber toBlock = Valid b /\
   (a < b <= a + 1000000)%Z) /\
  (validateBlockRange fromBlock toBlock = Valid (a, b) ->
   (0 <= a)%Z /\ (b <= MAX_SAFE_INTEGER)%Z).
Proof.
  assert (Hiff : validateBlockRange fromBlock toBlock = Valid (a, b) <->
            validateBlockNumber fromBlock = Valid a /\
            validateBlockNumber toBlock = Valid b /\
            (a < b <= a + 1000000)%Z).
  { unfold validateBlockRange, maxRange.
    destruct (validateBlockNumber fromBlock) as [x | ex];
      [| split; [discriminate | intros [H _]; discriminate]].
    destruct (validateBlockNumber toBlock) as [y | ey];
      [| split; [discriminate | intros [_ [H _]]; discriminate]].
    destruct (Z.geb_spec x y) as [Hge | Hlt].
    - split; [discriminate |]. intros ([= ->] & [= ->] & H). lia.
    - destruct (y - x >? 1000000)%Z eqn:Hgt.
      + split; [discriminate |]. intros ([= ->] & [= ->] & H).
        rewrite Z.gtb_ltb in Hgt. apply Z.ltb_lt in Hgt. lia.
      + rewrite Z.gtb_ltb in Hgt. apply Z.ltb_ge in Hgt. split.
        * intros [= -> ->]. repeat split; lia.
        * intros ([= ->] & [= ->] & H). reflexivity. }
  split; [exact Hiff |]. intros H. apply Hiff in H.
  destruct H as (Ha & Hb & _).
  apply validateBlockNumber_bounds in Ha. apply validateBlockNumber_bounds in Hb.
  lia.
Qed.

Lemma block_range_accepted_iff_witness :
  validateBlockRange "100" " 200 " = Valid (100, 200)%Z /\
  (0 <= 100)%Z /\ (200 <= MAX_SAFE_INTEGER)%Z.
Proof.
  split; [reflexivity |].
  apply (proj2 (block_range_accepted_iff "100" " 200 " 100 200)).
  reflexivity.
Defined.

Lemma trimStart_white (w s : string) :
  allWhite w = true -> trimStart (w ++ s) = trimStart s.
Proof.
  induction w as [| c w IH]; intros Hw; [reflexivity |].
  cbn [allWhite] in Hw. apply andb_true_iff in Hw. destruct Hw as [Hc Hw].
  rewrite append_cons. cbn [trimStart]. rewrite Hc. apply IH, Hw.
Qed.

Lemma trimEnd_cons (c : ascii) (r : string) :
  isWhite c = false -> trimEnd (String c r) = String c (trimEnd r).
Proof.
  intros Hc. cbn [trimEnd]. destruct (trimEnd r); [rewrite Hc |]; reflexivity.
Qed.

Lemma trimEnd_head (c : ascii) (r : string) :
  trimEnd (String c r) = "" \/ exists r', trimEnd (String c r) = String c r'.
Proof.
  cbn [trimEnd]. destruct (trimEnd r); [destruct (isWhite c) |]; eauto.
Qed.

Lemma digit_not_white (c : ascii) : digit c <> None -> isWhite c = false.
Proof.
  destruct c as [[] [] [] [] [] [] [] []]; intros H; try reflexivity;
    exfalso; apply H; reflexivity.
Qed.

Lemma digit_value (c : ascii) (v : Z) :
  digit c = Some v ->
  v = (Z.of_nat (nat_of_ascii c) - 48)%Z /\ (0 <= v <= 9)%Z.
Proof.
  unfold digit. cbv zeta.
  destruct (Nat.leb 48 (nat_of_ascii c) && Nat.leb (nat_of_ascii c) 57) eqn:H;
    [| discriminate].
  intros [= <-]. apply andb_true_iff in H. destruct H as [H1 H2].
  apply Nat.leb_le in H1. apply Nat.leb_le in H2. lia.
Qed.

Lemma parseInt_digit (c : ascii) (r : string) :
  digit c <> None -> parseInt (String c r) = digits (String c r) 0 false.
Proof.
  destruct c as [[] [] [] [] [] [] [] []]; intros H; try reflexivity;
    exfalso; apply H; reflexivity.
Qed.

Lemma digits_prefix (ds tail : string) (acc : Z) (seen : bool) :
  allDigits ds = true -> noDigitAhead tail = true ->
  ds <> "" \/ seen = true ->
  digits (ds ++ tail) acc seen = Some (decimal ds acc).
Proof.
  revert acc seen. induction ds as [| c ds IH]; intros acc seen Hd Ht Hs.
  - destruct Hs as [Hs | ->]; [congruence |]. rewrite append_nil_l.
    destruct tail as [| c r]; [reflexivity |].
    cbn [noDigitAhead] in Ht. apply bool_decide_eq_true in Ht.
    cbn [digits decimal]. rewrite Ht. reflexivity.
  - cbn [allDigits] in Hd. apply andb_true_iff in Hd. destruct Hd as [Hc Hd].
    apply bool_decide_eq_true in Hc. rewrite append_cons. cbn [digits decimal].
    destruct (digit c) as [v |] eqn:Hv; [| congruence].
    destruct (digit_value c v Hv) as [-> _]. apply IH; auto.
Qed.

Lemma decimal_nonneg (ds : string) (acc : Z) :
  allDigits ds = true -> (0 <= acc)%Z -> (0 <= decimal ds acc)%Z.
Proof.
  revert acc. induction ds as [| c ds IH]; intros acc Hd Ha; [assumption |].
  cbn [allDigits] in Hd. apply andb_true_iff in Hd. destruct Hd as [Hc Hd].
  apply bool_decide_eq_true in Hc. cbn [decimal].
  destruct (digit c) as [v |] eqn:Hv; [| congruence].
  destruct (digit_value c v Hv) as [Hv1 Hv2]. apply IH; [assumption | lia].
Qed.

(** X19: a block number is read off the leading digits of the text:
    white space before them and whatever follows them, from the first
    character that is not a digit on, is ignored.  The text is accepted with
    the number the digits denote, unless that number is above
    [MAX_SAFE_INTEGER]. *)
Theorem block_number_reads_leading_digits (w ds rest : string) :
  allWhite w = true ->
  allDigits ds = true -> ds <> "" ->
  noDigitAhead rest = true ->
  validateBlockNumber (w ++ ds ++ rest) =
  if (decimal ds 0 >? MAX_SAFE_INTEGER)%Z
  then Invalid "Block number is too large"
  else Valid (decimal ds 0).
Proof.
  intros Hw Hd Hne Hr.
  destruct ds as [| c ds]; [congruence |].
  pose proof Hd as Hd0.
  cbn [allDigits] in Hd. apply andb_true_iff in Hd. destruct Hd as [Hc Hd].
  apply bool_decide_eq_true in Hc.
  assert (Hcw : isWhite c = false) by (apply digit_not_white, Hc).
  unfold validateBlockNumber.
  assert (Htr : truthy (w ++ String c ds ++ rest) = true).
  { destruct w; [reflexivity | reflexivity]. }
  rewrite Htr. cbn [negb].
  assert (Htrim : exists rest',
            trim (w ++ String c ds ++ rest) = String c ds ++ rest' /\
            noDigitAhead rest' = true).
  { unfold trim. rewrite trimStart_white by assumption.
    rewrite append_cons. cbn [trimStart]. rewrite Hcw.
    rewrite trimEnd_cons by assumption.
    assert (Hds : forall u, allDigits u = true ->
              trimEnd (u ++ rest) = u ++ trimEnd rest).
    { induction u as [| b u IHu]; intros Hu; [reflexivity |].
      cbn [allDigits] in Hu. apply andb_true_iff in Hu. destruct Hu as [Hb Hu].
      apply bool_decide_eq_true in Hb. rewrite append_cons.
      rewrite trimEnd_cons by (apply digit_not_white, Hb).
      rewrite IHu by assumption. reflexivity. }
    rewrite Hds by assumption. exists (trimEnd rest). split; [reflexivity |].
    destruct rest as [| b r]; [reflexivity |].
    destruct (trimEnd_head b r) as [-> | [r' ->]]; [reflexivity | exact Hr]. }
  destruct Htrim as [rest' [-> Hr']].
  rewrite append_cons, parseInt_digit by assumption.
  rewrite <- append_cons, digits_prefix by (auto; left; discriminate).
  pose proof (decimal_nonneg (String c ds) 0 Hd0 (Z.le_refl 0)) as Hpos.
  destruct (Z.ltb_spec (decimal (String c ds) 0) 0); [lia | reflexivity].
Qed.

Lemma block_number_reads_leading_digits_witness :
  validateBlockNumber " 12abc" = Valid 12%Z.
Proof.
  apply (block_number_reads_leading_digits " " "12" "abc"); try reflexivity.
  discriminate.
Defined.

Lemma isHex_nameChar (c : ascii) : isHex c = true -> nameChar c = true.
Proof.
  destruct c as [[] [] [] [] [] [] [] []]; intros H; try reflexivity;
    discriminate.
Qed.

Lemma allHex_cssName (s : string) : allHex s = true -> cssName s = true.
Proof.
  induction s as [| c s IH]; [reflexivity |]. cbn [allHex cssName].
  rewrite !andb_true_iff. intros [Hc Hs].
  split; [apply isHex_nameChar, Hc | apply IH, Hs].
Qed.

Lemma hexPattern_cssName (s : string) : hexPattern s = true -> cssName s = true.
Proof.
  unfold hexPattern.
  destruct s as [| c0 s]; [discriminate |].
  destruct s as [| c1 s];
    [destruct c0 as [[] [] [] [] [] [] [] []]; discriminate |].
  destruct c0 as [[] [] [] [] [] [] [] []]; try discriminate.
  destruct c1 as [[] [] [] [] [] [] [] []]; try discriminate.
  rewrite andb_true_iff. intros [Hh _].
  change (cssName (String "0" (String "x" s))) with (cssName s).
  apply allHex_cssName, Hh.
Qed.

Lemma nameChar_not_white (c : ascii) : nameChar c = true -> isWhite c = false.
Proof.
  destruct c as [[] [] [] [] [] [] [] []]; intros H; try reflexivity;
    discriminate.
Qed.

Lemma trim_cssName (s : string) : cssName s = true -> trim s = s.
Proof.
  intros Hs. unfold trim.
  assert (H1 : trimStart s = s).
  { destruct s as [| c s]; [reflexivity |]. cbn [cssName] in Hs.
    apply andb_true_iff in Hs. destruct Hs as [Hc _].
    cbn [trimStart]. rewrite (nameChar_not_white c Hc). reflexivity. }
  rewrite H1. induction s as [| c s IH]; [reflexivity |].
  cbn [cssName] in Hs. apply andb_true_iff in Hs. destruct Hs as [Hc Hs].
  rewrite trimEnd_cons by (apply nameChar_not_white, Hc).
  rewrite IH; [reflexivity | assumption |].
  destruct s as [| b s]; [reflexivity |]. cbn [cssName] in Hs.
  apply andb_true_iff in Hs. destruct Hs as [Hb _].
  cbn [trimStart]. rewrite (nameChar_not_white b Hb). reflexivity.
Qed.

(** X20: an accepted address comes back in one form only: the input
    without surrounding white space, in lower case, 42 characters long,
    [0x] and forty hexadecimal digits.  That form is free of white space,
    is a plain class name for the selectors of the graph, and is accepted
    again unchanged. *)
Theorem accepted_address_is_canonical
    (isAddress : string -> option bool) (address sanitized : string) :
  validateEthereumAddress isAddress address = Valid sanitized ->
  sanitized = toLowerCase (trim address) /\
  String.length sanitized = 42 /\
  hexPattern sanitized = true /\
  toLowerCase sanitized = sanitized /\
  cssName sanitized = true /\ noSpace sanitized = true /\
  validateEthereumAddress isAddress sanitized = Valid sanitized.
Proof.
  unfold validateEthereumAddress at 1. cbv zeta.
  destruct (negb (truthy address)); [discriminate |].
  destruct (startsWith (toLowerCase (trim address)) "0x") eqn:H0;
    [| discriminate].
  destruct (Nat.eqb (String.length (toLowerCase (trim address))) 42) eqn:H1;
    [| discriminate].
  destruct (hexPattern (toLowerCase (trim address))) eqn:H2; [| discriminate].
  cbn [negb].
  destruct (isAddress (toLowerCase (trim address))) as [[] |] eqn:H3;
    try discriminate.
  intros [= <-].
  assert (Hcss : cssName (toLowerCase (trim address)) = true)
    by (apply hexPattern_cssName, H2).
  split; [reflexivity |]. split; [apply Nat.eqb_eq, H1 |].
  split; [assumption |]. split; [apply toLowerCase_idem |].
  split; [assumption |]. split; [apply cssName_noSpace, Hcss |].
  unfold validateEthereumAddress. cbv zeta.
  rewrite (trim_cssName _ Hcss), toLowerCase_idem, H0, H1, H2, H3.
  destruct (toLowerCase (trim address)); [discriminate | reflexivity].
Qed.

Lemma accepted_address_is_canonical_witness :
  validateEthereumAddress (fun _ => Some true)
    " 0xABCDEF0123456789abcdef0123456789ABCDEF01 "
  = Valid "0xabcdef0123456789abcdef0123456789abcdef01" /\
  cssName "0xabcdef0123456789abcdef0123456789abcdef01" = true.
Proof.
  split; [reflexivity |].
  apply (accepted_address_is_canonical (fun _ => Some true)
           " 0xABCDEF0123456789abcdef0123456789ABCDEF01 "
           "0xabcdef0123456789abcdef0123456789abcdef01").
  reflexivity.
Defined.

End ValidationFacts.

(** ** Redrawing and the flow animation in [GraphLayout] *)
Module FlowFacts.
Import Graph Lifecycle Examples.

Lemma phaseAt_setGens_dot (w : World) (n i m j : nat) (p : Phase) :
  phaseAt (setGens w (alter (setDot i p) n (gens w))) m j =
  if decide (n = m /\ i = j)
  then (fun _ => p) <$> phaseAt w m j
  else phaseAt w m j.
Proof.
  unfold phaseAt. cbn [gens setGens].
  destruct (decide (n = m)) as [-> | Hn].
  - rewrite list_lookup_alter_eq.
    destruct (gens w !! m) as [gn |]; cbn [fmap option_fmap option_map].
    + cbn [setDot dots]. destruct (decide (i = j)) as [-> | Hi].
      * rewrite decide_True by tauto.
        destruct (dots gn !! j) as [q |] eqn:Hq.
        -- rewrite list_lookup_insert_eq by (apply lookup_lt_Some in Hq; exact Hq).
           reflexivity.
        -- apply lookup_ge_None. rewrite length_insert.
           apply lookup_ge_None in Hq. exact Hq.
      * rewrite decide_False by tauto.
        apply list_lookup_insert_ne. assumption.
    + destruct (decide _); reflexivity.
  - rewrite list_lookup_alter_ne by assumption.
    rewrite decide_False by tauto. reflexivity.
Qed.

Lemma phaseAt_setGens_sim (w : World) (n m j : nat) (s : SimState) :
  phaseAt (setGens w (alter (setSim s) n (gens w))) m j = phaseAt w m j.
Proof.
  unfold phaseAt. cbn [gens setGens].
  destruct (decide (n = m)) as [-> | Hn].
  - rewrite list_lookup_alter_eq. destruct (gens w !! m); reflexivity.
  - rewrite list_lookup_alter_ne by assumption. reflexivity.
Qed.

(** X21: the flow dots are not coupled: a callback of the animation of one
    dot changes the phase of that dot only, and ticks, pointer gestures and
    zoom gestures change the phase of no dot. *)
Theorem callbacks_move_only_their_dot
    (w w' : World) (e : Event) (m j : nat) :
  callback e = true ->
  step w e = Some w' ->
  e <> TravelEnd m j -> e <> FadeEnd m j -> e <> Timeout m j ->
  phaseAt w' m j = phaseAt w m j.
Proof.
  intros Hcb Hstep H1 H2 H3.
  assert (Hne : forall n i, (e = TravelEnd n i \/ e = FadeEnd n i \/
                             e = Timeout n i) -> ~ (n = m /\ i = j)).
  { intros n i He [-> ->]. destruct He as [He | [He | He]]; contradiction. }
  destruct e as [data | | n cooled | n k | n | n i | n i | n i];
    cbn [callback] in Hcb; try discriminate; cbn [step] in Hstep.
  - destruct (gens w !! n) as [gn |]; [| discriminate].
    destruct (sim gn); [| discriminate].
    destruct cooled; injection Hstep as <-;
      [apply phaseAt_setGens_sim | reflexivity].
  - destruct (mounted w && bool_decide (attached w = Some n));
      [| discriminate].
    destruct k; injection Hstep as <-;
      try reflexivity; apply phaseAt_setGens_sim.
  - destruct (mounted w && bool_decide (zoomListener w = Some n));
      [| discriminate].
    injection Hstep as <-. reflexivity.
  - destruct (phaseAt w n i) as [[] |]; try discriminate.
    injection Hstep as <-. rewrite phaseAt_setGens_dot.
    apply decide_False. apply (Hne n i). tauto.
  - destruct (phaseAt w n i) as [[] |]; try discriminate.
    injection Hstep as <-. rewrite phaseAt_setGens_dot.
    apply decide_False. apply (Hne n i). tauto.
  - destruct (phaseAt w n i) as [[] |]; try discriminate.
    injection Hstep as <-. rewrite phaseAt_setGens_dot.
    apply decide_False. apply (Hne n i). tauto.
Qed.

Lemma callbacks_move_only_their_dot_witness :
  phaseAt (payloadEffect initial mixedTarget) 0 1 = Some Traveling /\
  forall w', step (payloadEffect initial mixedTarget) (TravelEnd 0 0) = Some w' ->
             phaseAt w' 0 1 = phaseAt (payloadEffect initial mixedTarget) 0 1.
Proof.
  split; [reflexivity |]. intros w' Hw'.
  apply (callbacks_move_only_their_dot _ w' (TravelEnd 0 0) 0 1);
    [reflexivity | exact Hw' | discriminate | discriminate | discriminate].
Defined.

Lemma setGens_same (w : World) : setGens w (gens w) = w.
Proof. destruct w. reflexivity. Qed.

Lemma setGens_setGens (w : World) (g1 g2 : list Generation) :
  setGens (setGens w g1) g2 = setGens w g2.
Proof. reflexivity. Qed.

Lemma alter_setDot_again (gs : list Generation) (n i : nat) (p q : Phase) :
  alter (setDot i q) n (alter (setDot i p) n gs) = alter (setDot i q) n gs.
Proof.
  apply list_eq. intros k. destruct (decide (n = k)) as [-> | Hn].
  - rewrite !list_lookup_alter_eq. destruct (gs !! k) as [gn |]; [| reflexivity].
    cbn [fmap option_fmap option_map]. f_equal. unfold setDot. cbn [sim dots].
    f_equal. apply list_insert_insert_eq.
  - rewrite !list_lookup_alter_ne by assumption. reflexivity.
Qed.

Lemma alter_setDot_same (gs : list Generation) (n i : nat) (p : Phase)
    (gn : Generation) :
  gs !! n = Some gn -> dots gn !! i = Some p ->
  alter (setDot i p) n gs = gs.
Proof.
  intros Hn Hi. apply list_eq. intros k. destruct (decide (n = k)) as [-> | Hne].
  - rewrite list_lookup_alter_eq, Hn. cbn [fmap option_fmap option_map].
    f_equal. destruct gn as [s ds]. unfold setDot. cbn [sim dots] in *.
    f_equal. apply list_insert_id. assumption.
  - rewrite list_lookup_alter_ne by assumption. reflexivity.
Qed.

(** X22: the animation of a flow dot is a loop: while its graph is the one
    in the document, a travelling dot that reaches its target, fades out
    and has its restart timer fire is travelling again, and the component
    is in the state it was in before the lap. *)
Theorem flow_dot_laps (w : World) (n i : nat) :
  attached w = Some n ->
  phaseAt w n i = Some Traveling ->
  run w [TravelEnd n i; FadeEnd n i; Timeout n i] = Some w.
Proof.
  intros Ha Hp. cbn [run step]. rewrite Hp.
  rewrite phaseAt_setGens_dot, decide_True, Hp by tauto.
  cbn [fmap option_fmap option_map attached setGens].
  rewrite (bool_decide_eq_true_2 _ Ha).
  rewrite setGens_setGens. cbn [gens setGens]. rewrite alter_setDot_again.
  rewrite phaseAt_setGens_dot, decide_True, Hp by tauto.
  cbn [fmap option_fmap option_map].
  rewrite setGens_setGens. cbn [gens setGens]. rewrite alter_setDot_again.
  unfold phaseAt in Hp. destruct (gens w !! n) as [gn |] eqn:Hn; [| discriminate].
  rewrite (alter_setDot_same _ _ _ _ gn Hn Hp), setGens_same. reflexivity.
Qed.

Lemma flow_dot_laps_witness :
  run (payloadEffect initial scenario) [TravelEnd 0 0; FadeEnd 0 0; Timeout 0 0]
  = Some (payloadEffect initial scenario).
Proof.
  apply (flow_dot_laps (payloadEffect initial scenario) 0 0); reflexivity.
Defined.

(** X23: in [GraphLayout] a new payload stops no simulation.  A simulation
    that runs when the payload arrives is still running after the redraw
    and its ticks are still delivered; the redraw makes [simulationRef]
    point to the new simulation, so that unmounting afterwards stops the new
    one only: the earlier one ticks on after the unmount, until it cools. *)
Theorem redraw_stops_no_simulation
    (w : World) (data : GraphData) (n : nat) (gn : Generation) :
  svgRef w = true ->
  gens w !! n = Some gn ->
  sim gn = Running ->
  gens (payloadEffect w data) !! n = Some gn /\
  simulationRef (payloadEffect w data) = Some (length (gens w)) /\
  gens (unmount (payloadEffect w data)) !! n = Some gn /\
  step (unmount (payloadEffect w data)) (Tick n false) =
  Some (unmount (payloadEffect w data)).
Proof.
  intros Hs Hn Hrun.
  assert (Hlt : n < length (gens w)) by (apply lookup_lt_Some in Hn; exact Hn).
  assert (Hg : gens (payloadEffect w data) =
               (gens w ++
                [{| sim := Running;
                    dots := replicate (length (links data)) Traveling |}])%list).
  { unfold payloadEffect, drawGraph. cbn [graphDrawnRef svgRef]. rewrite Hs.
    reflexivity. }
  assert (Hr : simulationRef (payloadEffect w data) = Some (length (gens w))).
  { unfold payloadEffect, drawGraph. cbn [graphDrawnRef svgRef]. rewrite Hs.
    reflexivity. }
  assert (H1 : gens (payloadEffect w data) !! n = Some gn).
  { rewrite Hg, lookup_app_l by assumption. assumption. }
  assert (H2 : gens (unmount (payloadEffect w data)) !! n = Some gn).
  { unfold unmount, cleanup. cbn [gens simulationRef]. rewrite Hr.
    rewrite list_lookup_alter_ne by lia. assumption. }
  split; [assumption |]. split; [assumption |]. split; [assumption |].
  cbn [step]. rewrite H2, Hrun. reflexivity.
Qed.

Lemma redraw_stops_no_simulation_witness :
  step (unmount (payloadEffect (payloadEffect initial scenario) mixedTarget))
       (Tick 0 false) =
  Some (unmount (payloadEffect (payloadEffect initial scenario) mixedTarget)).
Proof.
  apply (redraw_stops_no_simulation (payloadEffect initial scenario) mixedTarget
           0 {| sim := Running; dots := [Traveling] |});
    reflexivity.
Defined.

End FlowFacts.
